(** * GitHub analytics engine: aggregation, bounded pagination and read-through cache

    Shallow embedding of the backend of the repository statistics service:
    - [GitHubService.calculateContributorStats], [calculateLabelDistribution],
      [calculateActivityTimeline] and the [totalStats] rollup of
      [fetchUserStats] (src/backend/src/application/services/GitHubService.ts);
    - the page loops of [GitHubService.fetchPullRequests], [fetchBranches]
      and [fetchUserStats] as step machines, the per-repository rollup of
      [fetchUserStats] and the contributor order of [fetchRepositoryStats];
    - [CACHE_KEYS];
    - [RedisCacheService.get / memoryGet / set / getOrFetch / delete /
      exists / flush] and the connect handler
      (src/backend/src/infrastructure/cache/RedisCacheService.ts);
    - [DateUtils.getStartDate / toDateString / generateDateRange /
      getHoursBetween / isWithinFilter / getRelativeTime] and
      [GitHubUrlParser] (src/unnamed/part_002).

    Conventions.  Instants ([Date] values) are milliseconds since the epoch
    as [Z].  Counters of the statistics records are [nat] (JavaScript numbers
    that only ever count up from 0 by 1).  A JavaScript [Map] whose iteration
    order is observed ([Array.from(map.values())]) is an insertion-ordered
    association list; a [Map] or [Set] whose order is not observed is a
    [gmap] or [gset]. *)

From Stdlib Require Import ZArith Lia List Ascii String Sorted.
From stdpp Require Import base gmap strings list pretty.
Import ListNotations.

Open Scope Z_scope.

(* ------------------------------------------------------------------ *)
(** ** Insertion-ordered maps (JavaScript [Map] with observed order) *)

Module OMap.

Section OMap.
Context {K V : Type} `{EqDecision K}.

(** [map.get(k)] *)
Fixpoint get (k : K) (m : list (K * V)) : option V :=
  match m with
  | [] => None
  | (k', v') :: m' => if decide (k = k') then Some v' else get k m'
  end.

(** [map.set(k, v)]: an existing key keeps its position, a new key is
    appended at the end of the iteration order. *)
Fixpoint set (k : K) (v : V) (m : list (K * V)) : list (K * V) :=
  match m with
  | [] => [(k, v)]
  | (k', v') :: m' =>
      if decide (k = k') then (k, v) :: m' else (k', v') :: set k v m'
  end.

(** [map.has(k)] *)
Definition has (k : K) (m : list (K * V)) : bool :=
  match get k m with Some _ => true | None => false end.

(** [Array.from(map.values())] *)
Definition values (m : list (K * V)) : list V := map snd m.

End OMap.

End OMap.

(* ------------------------------------------------------------------ *)
(** ** Entities (core/entities): pull requests and contributor stats *)

Module Entities.

(** [state: "open" | "closed"] *)
Inductive PRState := Open | Closed.

#[global] Instance PRState_eq_dec : EqDecision PRState.
Proof. solve_decision. Defined.

(** [IPullRequest] (the fields the engine reads). *)
Record PullRequest := mkPR {
  number : Z;
  title : string;
  state : PRState;
  merged : bool;
  createdAt : Z;
  mergedAt : option Z;
  closedAt : option Z;
  repositoryName : string;
  login : string;          (* user.login *)
  avatarUrl : string;      (* user.avatarUrl *)
  labels : list string;
  additions : Z;
  deletions : Z;
}.

(** [IContributorStats] *)
Record ContributorStats := mkStats {
  username : string;
  c_avatarUrl : string;
  totalPRs : nat;
  mergedPRs : nat;
  openPRs : nat;
  closedPRs : nat;
  isMaintainer : bool;
  totalAdditions : Z;
  totalDeletions : Z;
}.

(** The [totalStats] object of [IUserProfileStats]. *)
Record TotalStats := mkTotals {
  t_totalPRs : nat;
  t_mergedPRs : nat;
  t_openPRs : nat;
  t_closedPRs : nat;
}.

End Entities.

Import Entities.

(* ------------------------------------------------------------------ *)
(** ** Statistics aggregator *)

Module Aggregator.

(** The record created by [statsMap.set(username, {...})] on first sight
    of an author. *)
Definition initialStats (pr : PullRequest) (maintainers : gset string)
    : ContributorStats :=
  {| username := login pr;
     c_avatarUrl := avatarUrl pr;
     totalPRs := 0; mergedPRs := 0; openPRs := 0; closedPRs := 0;
     isMaintainer := bool_decide (login pr ∈ maintainers);
     totalAdditions := 0; totalDeletions := 0 |}.

(** The in-place updates of the loop body:
    [stats.totalPRs++; stats.totalAdditions += ...; stats.totalDeletions += ...;
     if (pr.merged) mergedPRs++ else if (pr.state === "open") openPRs++
     else closedPRs++]. *)
Definition countPR (pr : PullRequest) (s : ContributorStats) : ContributorStats :=
  let s1 := {| username := username s; c_avatarUrl := c_avatarUrl s;
               totalPRs := S (totalPRs s);
               mergedPRs := mergedPRs s; openPRs := openPRs s;
               closedPRs := closedPRs s; isMaintainer := isMaintainer s;
               totalAdditions := totalAdditions s + additions pr;
               totalDeletions := totalDeletions s + deletions pr |} in
  if merged pr then
    {| username := username s1; c_avatarUrl := c_avatarUrl s1;
       totalPRs := totalPRs s1; mergedPRs := S (mergedPRs s1);
       openPRs := openPRs s1; closedPRs := closedPRs s1;
       isMaintainer := isMaintainer s1;
       totalAdditions := totalAdditions s1; totalDeletions := totalDeletions s1 |}
  else if decide (state pr = Open) then
    {| username := username s1; c_avatarUrl := c_avatarUrl s1;
       totalPRs := totalPRs s1; mergedPRs := mergedPRs s1;
       openPRs := S (openPRs s1); closedPRs := closedPRs s1;
       isMaintainer := isMaintainer s1;
       totalAdditions := totalAdditions s1; totalDeletions := totalDeletions s1 |}
  else
    {| username := username s1; c_avatarUrl := c_avatarUrl s1;
       totalPRs := totalPRs s1; mergedPRs := mergedPRs s1;
       openPRs := openPRs s1; closedPRs := S (closedPRs s1);
       isMaintainer := isMaintainer s1;
       totalAdditions := totalAdditions s1; totalDeletions := totalDeletions s1 |}.

(** One iteration of [for (const pr of prs)] on [statsMap]. *)
Definition contributorStep (maintainers : gset string)
    (statsMap : list (string * ContributorStats)) (pr : PullRequest)
    : list (string * ContributorStats) :=
  let u := login pr in
  let statsMap :=
    if OMap.has u statsMap then statsMap
    else OMap.set u (initialStats pr maintainers) statsMap in
  match OMap.get u statsMap with
  | Some stats => OMap.set u (countPR pr stats) statsMap
  | None => statsMap   (* unreachable: the key was just set *)
  end.

(** [calculateContributorStats(prs, maintainers)] *)
Definition calculateContributorStats (prs : list PullRequest)
    (maintainers : gset string) : list ContributorStats :=
  OMap.values (fold_left (contributorStep maintainers) prs []).

(** [totalStats] of [fetchUserStats]. *)
Definition userTotalStats (prs : list PullRequest) : TotalStats :=
  {| t_totalPRs := length prs;
     t_mergedPRs := length (filter (fun pr => merged pr = true) prs);
     t_openPRs := length (filter (fun pr => state pr = Open) prs);
     t_closedPRs :=
       length (filter (fun pr => state pr = Closed /\ merged pr = false) prs) |}.

(** [calculateLabelDistribution(prs)]: [distribution[label] =
    (distribution[label] || 0) + 1] over every label of every PR; the
    plain object [distribution] is a map from label to count. *)
Definition calculateLabelDistribution (prs : list PullRequest)
    : gmap string nat :=
  fold_left (fun d pr =>
    fold_left (fun (d : gmap string nat) label =>
      <[label := S (default 0%nat (d !! label))]> d) (labels pr) d)
    prs ∅.

End Aggregator.

(* ------------------------------------------------------------------ *)
(** ** User search path of [fetchUserStats]: search item to [IPullRequest] *)

Module UserSearch.

(** A JavaScript property that may be missing, [null], or hold a value. *)
Inductive nullish (A : Type) := Undefined | Null | Value (a : A).
Arguments Undefined {A}. Arguments Null {A}. Arguments Value {A} a.

(** A search result item: [item.pull_request] is absent ([None]) or an
    object whose [merged_at] is missing, [null] or a timestamp. The
    repository full name is the [owner/repo] already cut out of
    [item.repository_url]. *)
Record SearchItem := mkItem {
  i_number : Z;
  i_title : string;
  i_state : PRState;
  i_pull_request : option (nullish Z);
  i_created_at : Z;
  i_closed_at : option Z;
  i_repository_name : string;
  i_login : option string;
  i_labels : list string;
}.

(** [item.pull_request?.merged_at !== null] *)
Definition searchMerged (it : SearchItem) : bool :=
  match i_pull_request it with
  | None => true                 (* undefined !== null *)
  | Some Undefined => true
  | Some Null => false
  | Some (Value _) => true
  end.

(** [item.pull_request?.merged_at || null] *)
Definition searchMergedAt (it : SearchItem) : option Z :=
  match i_pull_request it with Some (Value t) => Some t | _ => None end.

(** The object pushed by [prs.push({...})]. *)
Definition mapSearchItem (username : string) (it : SearchItem) : PullRequest :=
  {| number := i_number it; title := i_title it; state := i_state it;
     merged := searchMerged it; createdAt := i_created_at it;
     mergedAt := searchMergedAt it; closedAt := i_closed_at it;
     repositoryName := i_repository_name it;
     login := default username (i_login it); avatarUrl := "";
     labels := i_labels it; additions := 0; deletions := 0 |}.

End UserSearch.

(* ------------------------------------------------------------------ *)
(** ** DateUtils *)

Module DateUtils.

Definition DAY : Z := 24 * 60 * 60 * 1000.

(** [TimeFilter = "2w" | "1m" | "3m" | "6m" | "all"] *)
Inductive TimeFilter := TwoWeeks | OneMonth | ThreeMonths | SixMonths | AllTime.

(** [getStartDate(filter)], with [now = new Date()] passed explicitly. *)
Definition getStartDate (filter : TimeFilter) (now : Z) : Z :=
  match filter with
  | TwoWeeks => now - 14 * DAY
  | OneMonth => now - 30 * DAY
  | ThreeMonths => now - 90 * DAY
  | SixMonths => now - 180 * DAY
  | AllTime => 0
  end.

(** [toDateString(date) = date.toISOString().split("T")[0]]: the UTC
    calendar day of the instant.  The string [YYYY-MM-DD] is represented
    by the index of that UTC day since 1970-01-01, which determines it
    and is determined by it. *)
Definition toDateString (t : Z) : Z := t / DAY.

(** The local time zone of the process (what [getDate]/[setDate] use):
    offset [std_off] (ms, local minus UTC) before the instant
    [switch_at], [dst_off] from it on.  A fixed-offset zone has
    [std_off = dst_off]; UTC is [utc]. *)
Record Zone := mkZone { std_off : Z; dst_off : Z; switch_at : Z }.

Definition utc : Zone := mkZone 0 0 0.

Definition offsetAt (z : Zone) (t : Z) : Z :=
  if t <? switch_at z then std_off z else dst_off z.

(** ECMAScript [UTC(t)] for a local time value [l]: the earlier instant
    when [l] exists twice, the offset before the transition when [l]
    falls in a gap. *)
Definition utcOfLocal (z : Zone) (l : Z) : Z :=
  if (switch_at z <=? l - dst_off z) && negb (l - std_off z <? switch_at z)
  then l - dst_off z else l - std_off z.

(** [d.setDate(d.getDate() + 1)]: next local calendar day, same local
    wall-clock time. *)
Definition nextLocalDay (z : Zone) (t : Z) : Z :=
  utcOfLocal z (t + offsetAt z t + DAY).

(** [while (currentDate <= endDate) { dates.push(toDateString(currentDate));
     currentDate.setDate(currentDate.getDate() + 1); }] *)
Fixpoint dateLoop (z : Zone) (fuel : nat) (currentDate endDate : Z) : list Z :=
  match fuel with
  | O => []
  | S fuel' =>
      if currentDate <=? endDate then
        toDateString currentDate :: dateLoop z fuel' (nextLocalDay z currentDate) endDate
      else []
  end.

(** The loop fuel: one iteration per half day of the range plus one is
    more than the loop can run, since every [setDate] step advances by a
    day give or take the zone's offset change (less than half a day). *)
Definition rangeFuel (startDate endDate : Z) : nat :=
  S (Z.to_nat ((endDate - startDate) / (DAY / 2))).

(** [generateDateRange(filter)]; both [new Date()] reads of the call are
    the clock reading [now]. *)
Definition generateDateRange (z : Zone) (filter : TimeFilter) (now : Z) : list Z :=
  let startDate := getStartDate filter now in
  let endDate := now in
  dateLoop z (rangeFuel startDate endDate) startDate endDate.

End DateUtils.

(* ------------------------------------------------------------------ *)
(** ** Activity timeline and the whole aggregation *)

Module Timeline.
Import DateUtils Aggregator.

(** [IActivityDataPoint] *)
Record ActivityDataPoint := mkPoint {
  date : Z;        (* the YYYY-MM-DD string, as a UTC day index *)
  opened : nat;
  mergedN : nat;   (* field [merged] *)
  closedN : nat;   (* field [closed] *)
}.

Definition bumpOpened (p : ActivityDataPoint) : ActivityDataPoint :=
  mkPoint (date p) (S (opened p)) (mergedN p) (closedN p).
Definition bumpMerged (p : ActivityDataPoint) : ActivityDataPoint :=
  mkPoint (date p) (opened p) (S (mergedN p)) (closedN p).
Definition bumpClosed (p : ActivityDataPoint) : ActivityDataPoint :=
  mkPoint (date p) (opened p) (mergedN p) (S (closedN p)).

(** [if (timeline.has(d)) timeline.get(d)!.field++] *)
Definition bumpAt (f : ActivityDataPoint -> ActivityDataPoint) (d : Z)
    (timeline : list (Z * ActivityDataPoint)) : list (Z * ActivityDataPoint) :=
  match OMap.get d timeline with
  | Some p => OMap.set d (f p) timeline
  | None => timeline
  end.

(** The body of [for (const pr of prs)]. *)
Definition countDay (timeline : list (Z * ActivityDataPoint)) (pr : PullRequest)
    : list (Z * ActivityDataPoint) :=
  let timeline := bumpAt bumpOpened (toDateString (createdAt pr)) timeline in
  match mergedAt pr with
  | Some m => bumpAt bumpMerged (toDateString m) timeline
  | None =>
      match closedAt pr with
      | Some c => bumpAt bumpClosed (toDateString c) timeline
      | None => timeline
      end
  end.

(** [calculateActivityTimeline(prs, timeFilter)] in zone [z] at clock [now]. *)
Definition calculateActivityTimeline (z : Zone) (prs : list PullRequest)
    (timeFilter : TimeFilter) (now : Z) : list ActivityDataPoint :=
  let dateRange := generateDateRange z timeFilter now in
  let timeline :=
    fold_left (fun m d => OMap.set d (mkPoint d 0 0 0) m) dateRange [] in
  OMap.values (fold_left countDay prs timeline).

(** The three reductions computed by [fetchRepositoryStats] from the PR
    list, the maintainer set and the time filter. *)
Definition aggregate (z : Zone) (prs : list PullRequest) (maintainers : gset string)
    (timeFilter : TimeFilter) (now : Z)
    : list ContributorStats * gmap string nat * list ActivityDataPoint :=
  (calculateContributorStats prs maintainers,
   calculateLabelDistribution prs,
   calculateActivityTimeline z prs timeFilter now).

(** [daysBetween(startDate(filter), today) + 1] on UTC calendar days. *)
Definition expectedTimelineLength (timeFilter : TimeFilter) (now : Z) : Z :=
  toDateString now - toDateString (getStartDate timeFilter now) + 1.

End Timeline.

(* ------------------------------------------------------------------ *)
(** ** Bounded pagination: the loop of [fetchPullRequests] *)

Module Pagination.
Import DateUtils.

(** [GITHUB_API] *)
Definition PER_PAGE : Z := 100.
Definition MAX_PAGES : Z := 5.
Definition MAX_PRS : Z := 500.

(** A pull request object of the [pulls.list] response. *)
Record RawPR := mkRaw {
  r_number : Z;
  r_title : string;
  r_state : PRState;
  r_merged_at : option Z;
  r_created_at : Z;
  r_closed_at : option Z;
  r_login : option string;
  r_labels : list string;
  r_additions : Z;
  r_deletions : Z;
}.

(** [mapPullRequest(pr, owner, repo)] *)
Definition mapPullRequest (pr : RawPR) (owner repo : string) : PullRequest :=
  {| number := r_number pr; title := r_title pr; state := r_state pr;
     merged := match r_merged_at pr with Some _ => true | None => false end;
     createdAt := r_created_at pr; mergedAt := r_merged_at pr;
     closedAt := r_closed_at pr;
     repositoryName := owner +:+ "/" +:+ repo;
     login := default "unknown" (r_login pr); avatarUrl := "";
     labels := r_labels pr; additions := r_additions pr;
     deletions := r_deletions pr |}.

(** A failed request as Octokit reports it. *)
Record RawError := mkErr {
  e_status : option Z;
  e_ratelimit_remaining : option string;
  e_ratelimit_reset : Z;
}.

(** [RateLimitError | GitHubApiError] *)
Inductive GitHubError :=
| RateLimitError (resetTime : Z)
| GitHubApiError (status : Z).

(** [handleGitHubError(error)]: the classification it throws. *)
Definition handleGitHubError (e : RawError) : GitHubError :=
  match e_status e with
  | Some 403 =>
      match e_ratelimit_remaining e with
      | Some "0"%string => RateLimitError (e_ratelimit_reset e * 1000)
      | _ => GitHubApiError 403
      end
  | Some 404 => GitHubApiError 404
  | Some 401 => GitHubApiError 401
  | Some st => GitHubApiError st
  | None => GitHubApiError 500
  end.

(** The upstream [pulls.list] endpoint for fixed owner, repo and base
    branch: the response to the request for a page. *)
Definition PullsApi := Z -> RawError + list RawPR.

Inductive Outcome := Looping | Returned | Raised (e : GitHubError).

(** Loop state: [currentPage], [allPRs], the pages requested so far, and
    whether the loop is still running, has returned [allPRs], or threw. *)
Record FetchState := mkFetch {
  currentPage : Z;
  allPRs : list PullRequest;
  requested : list Z;
  outcome : Outcome;
}.

Section Loop.
Variables (owner repo : string) (startDate : Z) (api : PullsApi).

(** One evaluation of the [while] guard and, when it holds, one loop
    body (one page request). *)
Definition step (s : FetchState) : FetchState :=
  match outcome s with
  | Looping =>
      if (currentPage s <=? MAX_PAGES)
         && (Z.of_nat (length (allPRs s)) <? MAX_PRS) then
        let req := requested s ++ [currentPage s] in
        match api (currentPage s) with
        | inl e => mkFetch (currentPage s) (allPRs s) req
                     (Raised (handleGitHubError e))
        | inr data =>
            if Nat.eqb (length data) 0 then
              mkFetch (currentPage s) (allPRs s) req Returned
            else
              let filteredPRs :=
                filter (fun pr => startDate <= r_created_at pr) data in
              let all' := allPRs s ++
                map (fun pr => mapPullRequest pr owner repo) filteredPRs in
              if Z.of_nat (length data) <? PER_PAGE then
                mkFetch (currentPage s) all' req Returned
              else if match last data with
                      | Some oldestPR => r_created_at oldestPR <? startDate
                      | None => false    (* unreachable: data is non-empty *)
                      end then
                mkFetch (currentPage s) all' req Returned
              else mkFetch (currentPage s + 1) all' req Looping
        end
      else mkFetch (currentPage s) (allPRs s) (requested s) Returned
  | _ => s
  end.

(** [n] steps of the loop (a finished loop stays finished). *)
Definition run (n : nat) (s : FetchState) : FetchState := Nat.iter n step s.

End Loop.

(** The state on entry: [currentPage = page] (default 1), [allPRs = []]. *)
Definition initState (page : Z) : FetchState := mkFetch page [] [] Looping.

(** Run of [fetchPullRequests(owner, repo, branch, timeFilter)] at clock
    [now] against the endpoint [api]. *)
Definition fetchRun (owner repo : string) (timeFilter : TimeFilter) (now : Z)
    (api : PullsApi) (n : nat) : FetchState :=
  run owner repo (getStartDate timeFilter now) api n (initState 1).

End Pagination.

(* ------------------------------------------------------------------ *)
(** ** CACHE_KEYS *)

Module CACHE_KEYS.
Import DateUtils.

(** The string value of a [TimeFilter]. *)
Definition timeFilterString (f : TimeFilter) : string :=
  match f with
  | TwoWeeks => "2w" | OneMonth => "1m" | ThreeMonths => "3m"
  | SixMonths => "6m" | AllTime => "all"
  end.

(** [branch || "all"] *)
Definition branchOrAll (branch : string) : string :=
  match branch with EmptyString => "all" | _ => branch end.

(** [repoStats(owner, repo, branch, filter) =
     `repo:${owner}:${repo}:${branch || "all"}:${filter}`] *)
Definition repoStats (owner repo branch filter : string) : string :=
  "repo:" +:+ owner +:+ ":" +:+ repo +:+ ":" +:+ branchOrAll branch
    +:+ ":" +:+ filter.

(** The string contains no [':'] (the separator of the key segments). *)
Fixpoint noColon (s : string) : bool :=
  match s with
  | EmptyString => true
  | String c s' => negb (Ascii.eqb c ":"%char) && noColon s'
  end.

(** [maintainers(owner, repo) = `maintainers:${owner}:${repo}`] *)
Definition maintainers (owner repo : string) : string :=
  "maintainers:" +:+ owner +:+ ":" +:+ repo.

(** [session(id) = `session:${id}`] *)
Definition session (id : string) : string := "session:" +:+ id.

(** [userStats(username, filter) = `user:${username}:${filter}`] *)
Definition userStats (username filter : string) : string :=
  "user:" +:+ username +:+ ":" +:+ filter.

(** [branches(owner, repo) = `branches:${owner}:${repo}`] *)
Definition branches (owner repo : string) : string :=
  "branches:" +:+ owner +:+ ":" +:+ repo.

(** [rateLimit(identifier) = `ratelimit:${identifier}`] *)
Definition rateLimit (identifier : string) : string := "ratelimit:" +:+ identifier.

End CACHE_KEYS.

(* ------------------------------------------------------------------ *)
(** ** RedisCacheService *)

Module Cache.

#[local] Set Warnings "-register-all".

(** JSON data, the values that travel through [JSON.stringify] and
    [JSON.parse] (numbers restricted to integers). *)
Inductive json :=
| JNull
| JBool (b : bool)
| JNum (n : Z)
| JStr (s : string)
| JArr (l : list json)
| JObj (l : list (string * json)).

(** Exceptions thrown by or through the cache layer. *)
Inductive Exn :=
| SyntaxError                             (* JSON.parse *)
| NotIterable                             (* new Set(x) on a non-array *)
| ApiFailure (e : Pagination.RawError)    (* a rejected Octokit call *)
| Classified (e : Pagination.GitHubError). (* handleGitHubError *)

(** Outcome of a call: a value or a thrown exception. *)
Inductive res (A : Type) := Ok (a : A) | Err (e : Exn).
Arguments Ok {A} a. Arguments Err {A} e.

Section Service.
(** Serialized form and the two halves of the JSON codec:
    [JSON.stringify] and [JSON.parse] ([None] when it throws). *)
Context {Ser : Type} (stringify : json -> Ser) (parse : Ser -> option json).

(** [{ value: string; expiry: number }] *)
Record Entry := mkEntry { value : Ser; expiry : Z }.

(** The service state: whether the Redis client answers ([false]: every
    client call rejects), the Redis keyspace (value and expiry instant
    of [SETEX]), the in-process [memoryCache], and the
    [useMemoryFallback] flag. *)
Record CacheState := mkCache {
  clientUp : bool;
  redis : gmap string (Ser * Z);
  memoryCache : gmap string Entry;
  useMemoryFallback : bool;
}.

Definition withMemory (st : CacheState) (m : gmap string Entry) : CacheState :=
  mkCache (clientUp st) (redis st) m (useMemoryFallback st).

Definition withRedis (st : CacheState) (r : gmap string (Ser * Z)) : CacheState :=
  mkCache (clientUp st) r (memoryCache st) (useMemoryFallback st).

(** [memoryGet(key)] at clock [now]. *)
Definition memoryGet (st : CacheState) (key : string) (now : Z)
    : res json * CacheState :=
  match memoryCache st !! key with
  | None => (Ok JNull, st)
  | Some entry =>
      if now >? expiry entry then
        (Ok JNull, withMemory st (delete key (memoryCache st)))
      else
        match parse (value entry) with
        | Some v => (Ok v, st)
        | None => (Err SyntaxError, st)
        end
  end.

(** [client.get(key)]: rejects when the client is down, [null] for a
    missing or expired key. *)
Definition redisGet (st : CacheState) (key : string) (now : Z)
    : option (option Ser) :=
  if clientUp st then
    match redis st !! key with
    | Some (v, exp) => if now <=? exp then Some (Some v) else Some None
    | None => Some None
    end
  else None.

(** [get(key)] *)
Definition get (st : CacheState) (key : string) (now : Z)
    : res json * CacheState :=
  if useMemoryFallback st then memoryGet st key now
  else
    match redisGet st key now with
    | None => memoryGet st key now                  (* catch *)
    | Some None => (Ok JNull, st)
    | Some (Some v) =>
        match parse v with
        | Some x => (Ok x, st)
        | None => memoryGet st key now              (* catch *)
        end
    end.

(** [set(key, value, ttl)] at clock [now]; [SETEX] rejects a
    non-positive ttl. *)
Definition set (st : CacheState) (key : string) (v : json) (ttl now : Z)
    : CacheState :=
  let serialized := stringify v in
  let memorySet :=
    withMemory st (<[key := mkEntry serialized (now + ttl * 1000)]> (memoryCache st)) in
  if useMemoryFallback st then memorySet
  else if clientUp st && (0 <? ttl) then
    withRedis st (<[key := (serialized, now + ttl * 1000)]> (redis st))
  else memorySet.

(** [getOrFetch(key, fetchFn, ttl)]: [fetchFn()] resolves to or throws
    [fetched]; the lookup runs at clock [tGet] and the store at clock
    [tSet].  The boolean says whether [fetchFn] was invoked. *)
Definition getOrFetch (st : CacheState) (key : string) (fetched : res json)
    (ttl tGet tSet : Z) : res json * CacheState * bool :=
  match get st key tGet with
  | (Err e, st1) => (Err e, st1, false)
  | (Ok cached, st1) =>
      match cached with
      | JNull =>
          match fetched with
          | Err e => (Err e, st1, true)
          | Ok data => (Ok data, set st1 key data ttl tSet, true)
          end
      | _ => (Ok cached, st1, false)
      end
  end.

(** A sequence of [getOrFetch(key, fetchFn, ttl)] calls with the same
    [fetchFn] outcome, each at its own [(ttl, tGet, tSet)]: what each
    call returned and whether it invoked [fetchFn]. *)
Fixpoint getOrFetchCalls (st : CacheState) (key : string) (fetched : res json)
    (calls : list (Z * Z * Z)) : list (res json * bool) :=
  match calls with
  | [] => []
  | (ttl, tGet, tSet) :: rest =>
      match getOrFetch st key fetched ttl tGet tSet with
      | (r, st', invoked) => (r, invoked) :: getOrFetchCalls st' key fetched rest
      end
  end.

End Service.

(** An empty service in degraded mode ([useMemoryFallback = true], Redis
    unreachable), over the identity codec on [json]. *)
Definition degradedEmpty : @CacheState json := mkCache false ∅ ∅ true.

End Cache.

(* ------------------------------------------------------------------ *)
(** ** fetchMaintainers *)

Module Maintainers.
Import Cache.

Definition MAINTAINER_TTL : Z := 3600.

(** [c.permissions] of a collaborator. *)
Record Permissions := mkPerms { push : bool; admin : bool }.

Record Collaborator := mkCollab {
  c_login : string;
  permissions : option Permissions;
}.

(** [c.permissions?.push || c.permissions?.admin] *)
Definition pushOrAdmin (c : Collaborator) : bool :=
  match permissions c with
  | Some p => push p || admin p
  | None => false
  end.

(** The [fetchFn] passed to [getOrFetch]: the list of logins, or [[]]
    when [listCollaborators] rejects. *)
Definition maintainersFetch (listed : res (list Collaborator)) : res json :=
  match listed with
  | Ok collaborators =>
      Ok (JArr (map (fun c => JStr (c_login c)) (filter (fun c => pushOrAdmin c = true) collaborators)))
  | Err _ => Ok (JArr [])
  end.

(** [new Set(maintainersList)] on the array of logins. *)
Definition toSet (v : json) : res (gset string) :=
  match v with
  | JArr l =>
      Ok (list_to_set (omap (fun j => match j with JStr s => Some s | _ => None end) l))
  | _ => Err NotIterable
  end.

(** [fetchMaintainers(owner, repo)]: [listed] is the outcome of the
    [listCollaborators] call, were it made. *)
Definition fetchMaintainers {Ser : Type} (stringify : json -> Ser)
    (parse : Ser -> option json) (st : CacheState) (owner repo : string)
    (listed : res (list Collaborator)) (tGet tSet : Z)
    : res (gset string) * CacheState :=
  match getOrFetch stringify parse st (CACHE_KEYS.maintainers owner repo)
          (maintainersFetch listed) MAINTAINER_TTL tGet tSet with
  | (Ok lst, st', _) => (toSet lst, st')
  | (Err e, st', _) => (Err e, st')
  end.

End Maintainers.

(* ------------------------------------------------------------------ *)
(** ** Concrete inputs used by the witnesses and counterexamples *)

Module Fixtures.
Import Pagination.

(** A search item in state "open" whose [pull_request] object is absent,
    so that [merged] comes out [true]. *)
Definition openItemNoPullRequest : UserSearch.SearchItem :=
  UserSearch.mkItem 1 "Add docs" Open None 0 None "octo/demo" (Some "alice") [].

(** A closed, unmerged raw pull request created at instant [t]. *)
Definition rawAt (t : Z) : RawPR := mkRaw 1 "fix" Closed None t None (Some "bob") [] 0 0.

(** An endpoint returning a full page of pull requests created at [t]
    for every page number, forever. *)
Definition fullPagesForever (t : Z) : PullsApi := fun _ => inr (repeat (rawAt t) 100).

(** A process in America/New_York around the 2024 spring-forward:
    UTC-5 before 2024-03-10T07:00:00Z, UTC-4 from then on. *)
Definition newYork2024 : DateUtils.Zone :=
  DateUtils.mkZone (-5 * 3600000) (-4 * 3600000) (19792 * DateUtils.DAY + 7 * 3600000).

(** The clock reading 2024-03-20T00:30:00Z (UTC day 19802). *)
Definition march20_0030Z : Z := 19802 * DateUtils.DAY + 30 * 60000.

End Fixtures.

(* ------------------------------------------------------------------ *)
(** ** Invariants and measures used by the proofs *)

Module Invariants.
Import Aggregator DateUtils Pagination Cache.

(** Per-record invariant of a contributor rollup. *)
Definition balanced (s : ContributorStats) : Prop :=
  totalPRs s = (mergedPRs s + openPRs s + closedPRs s)%nat.

(** Request-count invariant of the page loop: at most [MAX_PAGES]
    requests, and while the loop runs, one request per page already left
    behind. *)
Definition reqInv (s : FetchState) : Prop :=
  (length (requested s) <= 5)%nat /\
  (outcome s = Looping -> Z.of_nat (length (requested s)) = currentPage s - 1).

(** Item-count invariant: at most one full page per request. *)
Definition itemInv (s : FetchState) : Prop :=
  (length (allPRs s) <= 100 * length (requested s))%nat.

(** Every cache call goes to the in-process store: the flag is set, or
    the Redis client rejects every call. *)
Definition degraded {Ser : Type} (st : @CacheState Ser) : Prop :=
  useMemoryFallback st = true \/ clientUp st = false.

(** Every stored copy of [k] decodes to [null]. *)
Definition nullOnly {Ser : Type} (parse : Ser -> option json)
    (st : @CacheState Ser) (k : string) : Prop :=
  (forall e, memoryCache st !! k = Some e -> parse (value e) = Some JNull) /\
  (forall v exp, redis st !! k = Some (v, exp) -> parse v = Some JNull).

(** How many times [while (currentDate <= endDate)] runs in UTC. *)
Definition utcCount (cur endDate : Z) : nat :=
  if cur <=? endDate then Z.to_nat ((endDate - cur) / DAY + 1) else O.

End Invariants.

(* ------------------------------------------------------------------ *)
(** ** More of DateUtils: hours, filter membership, relative time *)

Module DateUtilsMore.
Import DateUtils.



(** [isWithinFilter(date, filter)] at clock [now]; [date] is [None] for
    an invalid date ([getTime()] is [NaN], every comparison is false). *)
Definition isWithinFilter (date : option Z) (filter : TimeFilter) (now : Z) : bool :=
  match date with
  | Some checkDate => getStartDate filter now <=? checkDate
  | None => false
  end.

(** [`${n}`] for the non-negative counts printed by [getRelativeTime]. *)
Definition showZ (n : Z) : string := pretty (Z.to_N n).

(** [`${n} unit${n > 1 ? "s" : ""} ago`] *)
Definition ago (n : Z) (unit : string) : string :=
  (showZ n +:+ " " +:+ unit +:+ (if 1 <? n then "s" else "")) +:+ " ago".

(** [getRelativeTime(date)] at clock [now]; [Math.floor] of a quotient
    of integers is [Z.div]. *)
Definition getRelativeTime (date : option Z) (now : Z) : string :=
  match date with
  | None => "just now"          (* NaN: no [> 0] test holds *)
  | Some targetDate =>
      let diffMs := now - targetDate in
      let seconds := diffMs / 1000 in
      let minutes := seconds / 60 in
      let hours := minutes / 60 in
      let days := hours / 24 in
      let weeks := days / 7 in
      let months := days / 30 in
      if 0 <? months then ago months "month"
      else if 0 <? weeks then ago weeks "week"
      else if 0 <? days then ago days "day"
      else if 0 <? hours then ago hours "hour"
      else if 0 <? minutes then ago minutes "minute"
      else "just now"
  end.

End DateUtilsMore.

(* ------------------------------------------------------------------ *)
(** ** GitHubUrlParser (src/unnamed/part_002) *)

Module GitHubUrlParser.

(** [ParsedRepo] *)
Record ParsedRepo := mkParsed { owner : string; repo : string }.

(** [new ValidationError(message, details?)] *)
Record ValidationError := mkValidationError {
  message : string;
  details : option string;   (* [{ input: trimmedInput }] *)
}.

(** Character codes below 256 that [String.prototype.trim] removes:
    TAB, LF, VT, FF, CR, SPACE and NO-BREAK SPACE. *)
Definition isTrimmed (c : ascii) : bool :=
  existsb (Nat.eqb (nat_of_ascii c)) [9; 10; 11; 12; 13; 32; 160]%nat.

Fixpoint trimStart (s : string) : string :=
  match s with
  | EmptyString => EmptyString
  | String c s' => if isTrimmed c then trimStart s' else s
  end.

Fixpoint trimEnd (s : string) : string :=
  match s with
  | EmptyString => EmptyString
  | String c s' =>
      let t := trimEnd s' in
      match t with
      | EmptyString => if isTrimmed c then EmptyString else String c EmptyString
      | _ => String c t
      end
  end.

(** [input.trim()] *)
Definition trim (s : string) : string := trimEnd (trimStart s).

(** [s.replace(/\.git$/, "")]: the only place the pattern can match is
    the end of the string. *)
Fixpoint stripGit (s : string) : string :=
  if String.eqb s ".git" then EmptyString
  else match s with
       | EmptyString => EmptyString
       | String c s' => String c (stripGit s')
       end.

(** Lower-casing of ASCII letters.  Under the [i] flag (without [u]) a
    character below 256 matches an ASCII pattern letter exactly when its
    ASCII lower case does. *)
Definition toLower (c : ascii) : ascii :=
  let n := nat_of_ascii c in
  if (65 <=? n)%nat && (n <=? 90)%nat then ascii_of_nat (n + 32) else c.

Definition ciEq (a b : ascii) : bool := Ascii.eqb (toLower a) (toLower b).

(** Match the literal [p] at the start of [s], case-insensitively; the
    rest of [s] on success. *)
Fixpoint stripPrefixCI (p s : string) : option string :=
  match p, s with
  | EmptyString, _ => Some s
  | String a p', String b s' => if ciEq a b then stripPrefixCI p' s' else None
  | String _ _, EmptyString => None
  end.

(** A greedy optional group [(?:x)?] followed by the continuation [k]:
    first with the group, then, on failure, without it. *)
Definition optThen {A : Type} (x : string -> option string)
    (k : string -> option A) (s : string) : option A :=
  match x s with
  | Some s' => match k s' with Some r => Some r | None => k s end
  | None => k s
  end.

(** The run of non-[/] characters at the start of [s], and what follows. *)
Fixpoint splitSlash (s : string) : string * string :=
  match s with
  | EmptyString => (EmptyString, EmptyString)
  | String c s' =>
      if Ascii.eqb c "/" then (EmptyString, s)
      else let (a, r) := splitSlash s' in (String c a, r)
  end.

(** [([^\/]+)\/([^\/]+)] at the start of [s]: both captures and the
    unmatched rest. *)
Definition twoSegments (s : string) : option (string * string * string) :=
  match splitSlash s with
  | (EmptyString, _) => None
  | (a, String _ r) =>
      match splitSlash r with
      | (EmptyString, _) => None
      | (b, rest) => Some (a, b, rest)
      end
  | (_, EmptyString) => None
  end.

(** [...\/?$] after the two captures *)
Definition segmentsOptSlash (s : string) : option (string * string) :=
  match twoSegments s with
  | Some (a, b, EmptyString) => Some (a, b)
  | Some (a, b, String "/" EmptyString) => Some (a, b)
  | _ => None
  end.

(** [fullUrl: /^https?:\/\/(?:www\.)?github\.com\/([^\/]+)\/([^\/]+)\/?$/i] *)
Definition fullUrl (s : string) : option (string * string) :=
  match stripPrefixCI "http" s with
  | None => None
  | Some s1 =>
      optThen (stripPrefixCI "s") (fun s2 =>
        match stripPrefixCI "://" s2 with
        | None => None
        | Some s3 =>
            optThen (stripPrefixCI "www.") (fun s4 =>
              match stripPrefixCI "github.com/" s4 with
              | None => None
              | Some s5 => segmentsOptSlash s5
              end) s3
        end) s1
  end.

(** [shortUrl: /^(?:www\.)?github\.com\/([^\/]+)\/([^\/]+)\/?$/i] *)
Definition shortUrl (s : string) : option (string * string) :=
  optThen (stripPrefixCI "www.") (fun s1 =>
    match stripPrefixCI "github.com/" s1 with
    | None => None
    | Some s2 => segmentsOptSlash s2
    end) s.

(** [simple: /^([^\/]+)\/([^\/]+)$/] *)
Definition simple (s : string) : option (string * string) :=
  match twoSegments s with
  | Some (a, b, EmptyString) => Some (a, b)
  | _ => None
  end.

(** [apiUrl: /^https?:\/\/api\.github\.com\/repos\/([^\/]+)\/([^\/]+)\/?$/i] *)
Definition apiUrl (s : string) : option (string * string) :=
  match stripPrefixCI "http" s with
  | None => None
  | Some s1 =>
      optThen (stripPrefixCI "s") (fun s2 =>
        match stripPrefixCI "://api.github.com/repos/" s2 with
        | None => None
        | Some s3 => segmentsOptSlash s3
        end) s1
  end.

(** [Object.entries(GitHubUrlParser.PATTERNS)], in declaration order. *)
Definition PATTERNS : list (string -> option (string * string)) :=
  [fullUrl; shortUrl; simple; apiUrl].

Definition isAlnum (c : ascii) : bool :=
  let n := nat_of_ascii c in
  (((48 <=? n) && (n <=? 57)) || ((65 <=? n) && (n <=? 90))
   || ((97 <=? n) && (n <=? 122)))%nat.

Fixpoint allChars (f : ascii -> bool) (s : string) : bool :=
  match s with
  | EmptyString => true
  | String c s' => f c && allChars f s'
  end.

Fixpoint lastChar (s : string) : option ascii :=
  match s with
  | EmptyString => None
  | String c EmptyString => Some c
  | String _ s' => lastChar s'
  end.

(** [/^[a-zA-Z0-9](?:[a-zA-Z0-9-]*[a-zA-Z0-9])?$/.test(owner)] *)
Definition ownerPattern (owner : string) : bool :=
  match owner with
  | EmptyString => false
  | String c EmptyString => isAlnum c
  | String c rest =>
      isAlnum c
      && allChars (fun d => isAlnum d || Ascii.eqb d "-") rest
      && match lastChar rest with Some d => isAlnum d | None => false end
  end.

(** [/^[a-zA-Z0-9._-]+$/.test(repo)] *)
Definition repoPattern (repo : string) : bool :=
  match repo with
  | EmptyString => false
  | _ => allChars (fun d => isAlnum d || Ascii.eqb d "." || Ascii.eqb d "_"
                            || Ascii.eqb d "-") repo
  end.

(** [validateNames(owner, repo)]: the error it throws, if any. *)
Definition validateNames (owner repo : string) : option ValidationError :=
  if negb (ownerPattern owner) then
    Some (mkValidationError ("Invalid repository owner: " +:+ owner) None)
  else if negb (repoPattern repo) then
    Some (mkValidationError ("Invalid repository name: " +:+ repo) None)
  else if (39 <? String.length owner)%nat then
    Some (mkValidationError "Repository owner name too long (max 39 characters)" None)
  else if (100 <? String.length repo)%nat then
    Some (mkValidationError "Repository name too long (max 100 characters)" None)
  else None.

(** The [for] loop over the patterns: the first that matches decides. *)
Fixpoint tryPatterns (patterns : list (string -> option (string * string)))
    (cleanInput trimmedInput : string) : ValidationError + ParsedRepo :=
  match patterns with
  | [] =>
      inl (mkValidationError
        "Invalid GitHub repository format. Use: owner/repo, github.com/owner/repo, or https://github.com/owner/repo"
        (Some trimmedInput))
  | pattern :: rest =>
      match pattern cleanInput with
      | Some (owner, repo) =>
          match validateNames owner repo with
          | Some e => inl e
          | None => inr (mkParsed owner repo)
          end
      | None => tryPatterns rest cleanInput trimmedInput
      end
  end.

(** [GitHubUrlParser.parse(input)] on a string input ([!input] holds
    for the empty string only). *)
Definition parse (input : string) : ValidationError + ParsedRepo :=
  match input with
  | EmptyString =>
      inl (mkValidationError "Repository URL or identifier is required" None)
  | _ =>
      let trimmedInput := trim input in
      let cleanInput := stripGit trimmedInput in
      tryPatterns PATTERNS cleanInput trimmedInput
  end.

(** [buildUrl(owner, repo)] and [buildApiUrl(owner, repo)] *)
Definition buildUrl (owner repo : string) : string :=
  "https://github.com/" +:+ owner +:+ "/" +:+ repo.
Definition buildApiUrl (owner repo : string) : string :=
  "https://api.github.com/repos/" +:+ owner +:+ "/" +:+ repo.

(** [isGitHubUrl(input)] *)
Definition isGitHubUrl (input : string) : bool :=
  match parse input with inr _ => true | inl _ => false end.

(** [toShortFormat(input)] *)
Definition toShortFormat (input : string) : ValidationError + string :=
  match parse input with
  | inr p => inr (owner p +:+ "/" +:+ repo p)
  | inl e => inl e
  end.

(** The prefixes, in lower case, that [fullUrl], [shortUrl] and [apiUrl]
    accept before [owner/repo]. *)
Definition urlPrefixes : list string :=
  ["github.com/"; "www.github.com/"; "http://github.com/"; "https://github.com/";
   "http://www.github.com/"; "https://www.github.com/";
   "http://api.github.com/repos/"; "https://api.github.com/repos/"].

(** The string ends with [".git"]. *)
Fixpoint endsWithGit (s : string) : bool :=
  String.eqb s ".git" || match s with EmptyString => false | String _ s' => endsWithGit s' end.

End GitHubUrlParser.

Module CacheOps.
Import Cache.

Section Ops.
Context {Ser : Type}.
Implicit Types st : @CacheState Ser.

(** [delete(key)]: the key leaves [memoryCache]; [client.del(key)] runs
    unless the fallback flag is set, and its rejection is ignored. *)
Definition delete st (key : string) : CacheState :=
  let st1 := withMemory st (base.delete key (memoryCache st)) in
  if negb (useMemoryFallback st) && clientUp st then
    withRedis st1 (base.delete key (redis st1))
  else st1.

(** [exists(key)] at clock [now]: in fallback mode an entry not past its
    expiry; otherwise [client.exists(key) === 1], [false] when it
    rejects. *)
Definition exists_ st (key : string) (now : Z) : bool :=
  if useMemoryFallback st then
    match memoryCache st !! key with
    | Some entry => now <=? expiry entry
    | None => false
    end
  else if clientUp st then
    match redis st !! key with
    | Some (_, exp) => now <=? exp
    | None => false
    end
  else false.

(** [flush()]: [memoryCache.clear()], then [client.flushdb()] unless the
    fallback flag is set, its rejection ignored. *)
Definition flush st : CacheState :=
  let st1 := withMemory st ∅ in
  if negb (useMemoryFallback st) && clientUp st then withRedis st1 ∅ else st1.

(** The client's ["connect"] handler: [useMemoryFallback = false], and the
    client answers. *)
Definition onConnect st : CacheState :=
  mkCache true (redis st) (memoryCache st) false.

End Ops.
End CacheOps.

(* ------------------------------------------------------------------ *)
(** ** The branch listing of [fetchBranches] *)

Module Branches.
Import Pagination.

(** The upstream [repos.listBranches] endpoint for fixed owner and repo:
    the response to the request for a page, as the list of
    [data.map((b) => b.name)]. *)
Definition BranchesApi := Z -> RawError + list string.

(** Loop state: [page], [branches], the pages requested so far and the
    loop's outcome. *)
Record BranchState := mkBranches {
  page : Z;
  branches : list string;
  b_requested : list Z;
  b_outcome : Outcome;
}.

Section Loop.
Variable api : BranchesApi.

(** One evaluation of [while (page <= 3)] and, when it holds, one body;
    a rejected request goes to [catch], whose [handleGitHubError(error)]
    throws (the [return []] after it is unreachable). *)
Definition step (s : BranchState) : BranchState :=
  match b_outcome s with
  | Looping =>
      if page s <=? 3 then
        let req := b_requested s ++ [page s] in
        match api (page s) with
        | inl e => mkBranches (page s) (branches s) req (Raised (handleGitHubError e))
        | inr data =>
            let branches' := branches s ++ data in
            if Z.of_nat (length data) <? 100 then
              mkBranches (page s) branches' req Returned
            else mkBranches (page s + 1) branches' req Looping
        end
      else mkBranches (page s) (branches s) (b_requested s) Returned
  | _ => s
  end.

Definition run (n : nat) (s : BranchState) : BranchState := Nat.iter n step s.

End Loop.

(** [let page = 1], [branches = []]. *)
Definition initBranches : BranchState := mkBranches 1 [] [] Looping.

End Branches.

(* ------------------------------------------------------------------ *)
(** ** The search loop and the rollups of [fetchUserStats] *)

Module UserStats.
Import Pagination UserSearch.

(** The [search.issuesAndPullRequests] endpoint for the fixed query:
    the [items] of the response to the request for a page. *)
Definition SearchApi := Z -> RawError + list SearchItem.

Record SearchState := mkSearch {
  s_page : Z;
  prs : list PullRequest;
  s_requested : list Z;
  s_outcome : Outcome;
}.

Section Loop.
Variables (username : string) (api : SearchApi).

(** One evaluation of [while (page <= 5 && prs.length < 500)] and, when
    it holds, one body; a rejected request reaches [catch], which calls
    [handleGitHubError(error)] (it throws). *)
Definition step (s : SearchState) : SearchState :=
  match s_outcome s with
  | Looping =>
      if (s_page s <=? 5) && (Z.of_nat (length (prs s)) <? 500) then
        let req := s_requested s ++ [s_page s] in
        match api (s_page s) with
        | inl e => mkSearch (s_page s) (prs s) req (Raised (handleGitHubError e))
        | inr items =>
            if Nat.eqb (length items) 0 then mkSearch (s_page s) (prs s) req Returned
            else
              let prs' := prs s ++ map (mapSearchItem username) items in
              if Z.of_nat (length items) <? 100 then mkSearch (s_page s) prs' req Returned
              else mkSearch (s_page s + 1) prs' req Looping
        end
      else mkSearch (s_page s) (prs s) (s_requested s) Returned
  | _ => s
  end.

Definition run (n : nat) (s : SearchState) : SearchState := Nat.iter n step s.

End Loop.

(** [const prs = []; let page = 1] *)
Definition initSearch : SearchState := mkSearch 1 [] [] Looping.

(** [IRepositoryContribution] *)
Record RepositoryContribution := mkContribution {
  fullName : string;
  prCount : nat;
  mergedCount : nat;
  rc_isMaintainer : bool;
}.

(** One iteration of [for (const pr of prs)] on [repositories].  The
    keys are [`${owner}/${repo}`] strings: they contain ['/'], so they
    are never array indices or [Object.prototype] members, and the plain
    object behaves as an insertion-ordered map. *)
Definition repositoryStep (repositories : list (string * RepositoryContribution))
    (pr : PullRequest) : list (string * RepositoryContribution) :=
  let repoName := repositoryName pr in
  let repositories :=
    if OMap.has repoName repositories then repositories
    else OMap.set repoName (mkContribution repoName 0 0 false) repositories in
  match OMap.get repoName repositories with
  | Some r =>
      let r1 := mkContribution (fullName r) (S (prCount r)) (mergedCount r)
                  (rc_isMaintainer r) in
      let r2 := if merged pr then
                  mkContribution (fullName r1) (prCount r1) (S (mergedCount r1))
                    (rc_isMaintainer r1)
                else r1 in
      OMap.set repoName r2 repositories
  | None => repositories      (* unreachable: the key was just set *)
  end.

(** The [repositories] object built from [prs]. *)
Definition repositories (prs : list PullRequest)
    : list (string * RepositoryContribution) :=
  fold_left repositoryStep prs [].

End UserStats.

(* ------------------------------------------------------------------ *)
(** ** The contributor order of [fetchRepositoryStats] *)

Module ContributorOrder.

(** [contributors.sort((a, b) => b.totalPRs - a.totalPRs)].
    [Array.prototype.sort] is stable, and the comparator is a consistent
    order on [totalPRs]; the sorted array is therefore the stable sort
    by decreasing [totalPRs], written here as an insertion sort:
    [insertDesc c l] places [c] after every element of [l] that does not
    sort after it. *)
Fixpoint insertDesc (c : ContributorStats) (l : list ContributorStats)
    : list ContributorStats :=
  match l with
  | [] => [c]
  | x :: l' => if (totalPRs x <? totalPRs c)%nat then c :: x :: l'
               else x :: insertDesc c l'
  end.

Definition sortContributors (l : list ContributorStats) : list ContributorStats :=
  fold_left (fun acc c => insertDesc c acc) l [].

End ContributorOrder.

(* ------------------------------------------------------------------ *)
(** ** Measures and loop invariants of the added code *)

Module Measures.
Import Aggregator DateUtils Timeline Pagination.

(** Character classes of the URL proofs. *)
Definition notSlash (c : ascii) : bool := negb (Ascii.eqb c "/").
Definition notColon (c : ascii) : bool := negb (Ascii.eqb c ":").
Definition notTrimmed (c : ascii) : bool := negb (GitHubUrlParser.isTrimmed c).

(** No ['.'] before the first ['/'] (or the end). *)
Fixpoint dotFreeHead (t : string) : bool :=
  match t with
  | EmptyString => true
  | String c t' =>
      if Ascii.eqb c "/" then true else if Ascii.eqb c "." then false else dotFreeHead t'
  end.

(** A ['.'] comes before the first ['/']. *)
Fixpoint dotBeforeSlash (p : string) : bool :=
  match p with
  | EmptyString => false
  | String c p' =>
      if Ascii.eqb c "." then true else if Ascii.eqb c "/" then false else dotBeforeSlash p'
  end.

(** The page loop of [fetchPullRequests] started at page [p]: the pages
    requested are [p, p+1, ...], none beyond [MAX_PAGES]; while it runs
    the next page follows the last one; started beyond [MAX_PAGES] it
    requests and collects nothing. *)
Definition pageInv (p : Z) (s : FetchState) : Prop :=
  requested s = map (fun i => p + Z.of_nat i) (seq 0 (length (requested s))) /\
  Forall (fun q => q <= MAX_PAGES) (requested s) /\
  (outcome s = Looping -> currentPage s = p + Z.of_nat (length (requested s))) /\
  (MAX_PAGES < p -> allPRs s = [] /\ requested s = []).

(** The branch names of page [q] (none for a failed request). *)
Definition pageData (api : Branches.BranchesApi) (q : Z) : list string :=
  match api q with inr d => d | inl _ => [] end.

(** The branch loop: pages [1, 2, ...] up to 3, and [branches] is the
    concatenation of their names. *)
Definition brInv (api : Branches.BranchesApi) (s : Branches.BranchState) : Prop :=
  Branches.b_requested s = map (fun i => 1 + Z.of_nat i) (seq 0 (length (Branches.b_requested s))) /\
  Forall (fun q => q <= 3) (Branches.b_requested s) /\
  Branches.branches s = flat_map (pageData api) (Branches.b_requested s) /\
  (Branches.b_outcome s = Looping ->
   Branches.page s = 1 + Z.of_nat (length (Branches.b_requested s))).

(** The mapped pull requests of search page [q] (none for a failed request). *)
Definition pageItems (username : string) (api : UserStats.SearchApi) (q : Z) : list PullRequest :=
  match api q with inr d => map (UserSearch.mapSearchItem username) d | inl _ => [] end.

(** The search loop of [fetchUserStats]: pages [1, 2, ...] up to 5, and
    [prs] is the concatenation of their mapped items. *)
Definition searchInv (username : string) (api : UserStats.SearchApi) (s : UserStats.SearchState) : Prop :=
  UserStats.s_requested s = map (fun i => 1 + Z.of_nat i) (seq 0 (length (UserStats.s_requested s))) /\
  Forall (fun q => q <= 5) (UserStats.s_requested s) /\
  UserStats.prs s = flat_map (pageItems username api) (UserStats.s_requested s) /\
  (UserStats.s_outcome s = Looping ->
   UserStats.s_page s = 1 + Z.of_nat (length (UserStats.s_requested s))).

(** One pull request counted into a repository's tally. *)
Definition bump (pr : PullRequest) (r : UserStats.RepositoryContribution) : UserStats.RepositoryContribution :=
  UserStats.mkContribution (UserStats.fullName r) (S (UserStats.prCount r))
    (if merged pr then S (UserStats.mergedCount r) else UserStats.mergedCount r)
    (UserStats.rc_isMaintainer r).

(** Pull requests of repository [n], and those of them merged. *)
Definition countIn (n : string) (prs : list PullRequest) : nat :=
  length (filter (fun pr => repositoryName pr = n) prs).

Definition mergedIn (n : string) (prs : list PullRequest) : nat :=
  length (filter (fun pr => repositoryName pr = n /\ merged pr = true) prs).

(** The order of the contributor list: by [totalPRs], descending. *)
Definition desc (a b : ContributorStats) : Prop := (totalPRs b <= totalPRs a)%nat.


(** A column total of the timeline map. *)
Definition sumOf (g : ActivityDataPoint -> nat) (m : list (Z * ActivityDataPoint)) : nat :=
  sum_list_with g (OMap.values m).

(** 1 when day [d] has an entry of the timeline map. *)
Definition inRange (m : list (Z * ActivityDataPoint)) (d : Z) : nat :=
  if OMap.has d m then 1 else 0.

End Measures.

(* ================================================================== *)
(** * Proofs *)

Module OMapFacts.

Section Facts.
Context {K V : Type} `{EqDecision K}.

Lemma get_set_eq (k : K) (v : V) (m : list (K * V)) :
  OMap.get k (OMap.set k v m) = Some v.
Proof.
  induction m as [|[k' v'] m IH]; simpl.
  - by rewrite decide_True.
  - case_decide; simpl; [by rewrite decide_True|].
    rewrite decide_False by done. exact IH.
Qed.

Lemma values_set_Forall (P : V -> Prop) (k : K) (v : V) (m : list (K * V)) :
  Forall P (OMap.values m) -> P v -> Forall P (OMap.values (OMap.set k v m)).
Proof.
  unfold OMap.values. induction m as [|[k' v'] m IH]; simpl; intros Hm Hv.
  - by constructor.
  - inversion Hm; subst. case_decide; simpl; constructor; auto.
Qed.

Lemma sum_values_set (f : V -> nat) (k : K) (v : V) (m : list (K * V)) :
  (sum_list_with f (OMap.values (OMap.set k v m))
    + default 0 (f <$> OMap.get k m)
  = sum_list_with f (OMap.values m) + f v)%nat.
Proof.
  unfold OMap.values. induction m as [|[k' v'] m IH]; simpl.
  - lia.
  - case_decide; simpl; lia.
Qed.

End Facts.

End OMapFacts.

Module AggregatorFacts.
Import Aggregator Invariants.

Lemma countPR_total pr s : totalPRs (countPR pr s) = S (totalPRs s).
Proof.
  unfold countPR. destruct (merged pr); [done|]. by case_decide.
Qed.

Lemma countPR_balanced pr s : balanced s -> balanced (countPR pr s).
Proof.
  unfold balanced, countPR. intros H.
  destruct (merged pr); simpl; [lia|]. case_decide; simpl; lia.
Qed.

Lemma contributorStep_invariant maintainers m pr :
  Forall balanced (OMap.values m) ->
  Forall balanced (OMap.values (contributorStep maintainers m pr)) /\
  (sum_list_with totalPRs (OMap.values (contributorStep maintainers m pr))
    = S (sum_list_with totalPRs (OMap.values m)))%nat.
Proof.
  intros Hm. unfold contributorStep, OMap.has.
  destruct (OMap.get (login pr) m) as [s|] eqn:Hg.
  - assert (Hs : balanced s).
    { clear -Hm Hg. unfold OMap.values in Hm.
      induction m as [|[k v] m IH]; simpl in *; [done|].
      inversion Hm; subst. case_decide; [congruence | auto]. }
    rewrite Hg. split.
    + apply OMapFacts.values_set_Forall; [done|]. by apply countPR_balanced.
    + pose proof (OMapFacts.sum_values_set totalPRs (login pr) (countPR pr s) m)
        as Hsum.
      rewrite Hg, countPR_total in Hsum. simpl in Hsum. lia.
  - rewrite OMapFacts.get_set_eq. split.
    + apply OMapFacts.values_set_Forall.
      * apply OMapFacts.values_set_Forall; [done|]. unfold balanced; done.
      * apply countPR_balanced. unfold balanced; done.
    + pose proof (OMapFacts.sum_values_set totalPRs (login pr)
        (countPR pr (initialStats pr maintainers))
        (OMap.set (login pr) (initialStats pr maintainers) m)) as H1.
      pose proof (OMapFacts.sum_values_set totalPRs (login pr)
        (initialStats pr maintainers) m) as H2.
      rewrite OMapFacts.get_set_eq, countPR_total in H1.
      rewrite Hg in H2. simpl in H1, H2. lia.
Qed.

Lemma contributor_fold_invariant maintainers prs m :
  Forall balanced (OMap.values m) ->
  Forall balanced (OMap.values (fold_left (contributorStep maintainers) prs m)) /\
  (sum_list_with totalPRs (OMap.values (fold_left (contributorStep maintainers) prs m))
    = sum_list_with totalPRs (OMap.values m) + length prs)%nat.
Proof.
  revert m. induction prs as [|pr prs IH]; intros m Hm; simpl.
  - split; [done | lia].
  - destruct (contributorStep_invariant maintainers m pr Hm) as [H1 H2].
    destruct (IH _ H1) as [H3 H4]. split; [done|]. lia.
Qed.

(** The repository-path reducer keeps both halves of the rollup invariant
    for every PR list, whatever the combination of [merged] and [state]. *)
Lemma calculateContributorStats_invariant prs maintainers :
  (sum_list_with totalPRs (calculateContributorStats prs maintainers) = length prs)%nat /\
  Forall balanced (calculateContributorStats prs maintainers).
Proof.
  unfold calculateContributorStats.
  destruct (contributor_fold_invariant maintainers prs [] (List.Forall_nil _)) as [H1 H2].
  split; [exact H2 | exact H1].
Qed.

End AggregatorFacts.

Module PaginationFacts.
Import DateUtils Pagination Invariants.

Section Loop.
Variables (owner repo : string) (startDate : Z) (api : PullsApi).

Lemma step_reqInv s : reqInv s -> reqInv (step owner repo startDate api s).
Proof.
  unfold reqInv, step. intros [HL Hp].
  destruct (outcome s) eqn:Ho;
    [|split; [done | intros; congruence]|split; [done | intros; congruence]].
  specialize (Hp eq_refl).
  destruct (currentPage s <=? MAX_PAGES) eqn:Hc; simpl;
    [|split; [done | discriminate]].
  apply Z.leb_le in Hc. unfold MAX_PAGES in Hc.
  destruct (Z.of_nat (length (allPRs s)) <? MAX_PRS); simpl;
    [|split; [done | discriminate]].
  assert (HL' : (length (requested s ++ [currentPage s]) <= 5)%nat).
  { rewrite length_app. simpl. lia. }
  destruct (api (currentPage s)) as [e|data]; simpl;
    [split; [done | discriminate]|].
  destruct (Nat.eqb (length data) 0); simpl; [split; [done | discriminate]|].
  destruct (Z.of_nat (length data) <? PER_PAGE); simpl;
    [split; [done | discriminate]|].
  destruct (match last data with
            | Some oldestPR => r_created_at oldestPR <? startDate
            | None => false end); simpl; [split; [done | discriminate]|].
  split; [done|]. intros _. rewrite length_app. simpl. lia.
Qed.

Lemma run_reqInv n s : reqInv s -> reqInv (run owner repo startDate api n s).
Proof.
  intros H. induction n as [|n IH]; simpl; [done|]. by apply step_reqInv.
Qed.

(** Item-count invariant, for an endpoint that honours [per_page]. *)
Hypothesis page_size : forall p data, api p = inr data ->
  Z.of_nat (length data) <= PER_PAGE.

Lemma step_itemInv s : itemInv s -> itemInv (step owner repo startDate api s).
Proof.
  unfold itemInv, step. intros H.
  destruct (outcome s); [|done|done].
  destruct ((currentPage s <=? MAX_PAGES)
            && (Z.of_nat (length (allPRs s)) <? MAX_PRS)); simpl; [|done].
  destruct (api (currentPage s)) as [e|data] eqn:Ha; simpl;
    [rewrite length_app; simpl; lia|].
  pose proof (page_size _ _ Ha) as Hd. unfold PER_PAGE in Hd.
  pose proof (length_filter (fun pr => startDate <= r_created_at pr) data) as Hf.
  assert (Hlen : (length (allPRs s ++ map (fun pr => mapPullRequest pr owner repo)
                     (filter (fun pr => (startDate <= r_created_at pr)%Z) data))
                  <= 100 * length (requested s ++ [currentPage s]))%nat).
  { rewrite !length_app, length_map. simpl. lia. }
  destruct (Nat.eqb (length data) 0); simpl;
    [rewrite length_app; simpl; lia|].
  destruct (Z.of_nat (length data) <? PER_PAGE); simpl; [done|].
  destruct (match last data with
            | Some oldestPR => r_created_at oldestPR <? startDate
            | None => false end); simpl; done.
Qed.

Lemma run_itemInv n s : itemInv s -> itemInv (run owner repo startDate api n s).
Proof.
  intros H. induction n as [|n IH]; simpl; [done|]. by apply step_itemInv.
Qed.

End Loop.

(** A finished loop is a fixed point of [step]. *)
Lemma run_finished owner repo startDate api n s :
  outcome s <> Looping -> run owner repo startDate api n s = s.
Proof.
  intros H. induction n as [|n IH]; simpl; [done|].
  rewrite IH. unfold step. destruct (outcome s); done.
Qed.

Lemma run_S owner repo startDate api n s :
  run owner repo startDate api (S n) s
  = run owner repo startDate api n (step owner repo startDate api s).
Proof.
  unfold run. revert s. induction n as [|n IH]; intros s; [done|].
  simpl in *. by rewrite <- IH.
Qed.

(** While the loop is still running after [n] steps from the entry
    state, it has issued exactly [n] requests; so after 6 steps it has
    stopped. *)
Lemma looping_requests owner repo startDate api n :
  outcome (run owner repo startDate api n (initState 1)) = Looping ->
  length (requested (run owner repo startDate api n (initState 1))) = n.
Proof.
  induction n as [|n IH]; [done|]. intros Hl. simpl in *.
  remember (run owner repo startDate api n (initState 1)) as s.
  unfold step in *. destruct (outcome s) eqn:Ho; [|by rewrite Ho in Hl|by rewrite Ho in Hl].
  destruct ((currentPage s <=? MAX_PAGES)
            && (Z.of_nat (length (allPRs s)) <? MAX_PRS)); [|done].
  destruct (api (currentPage s)); [done|].
  destruct (Nat.eqb (length l) 0); [done|].
  destruct (Z.of_nat (length l) <? PER_PAGE); [done|].
  destruct (match last l with
            | Some oldestPR => r_created_at oldestPR <? startDate
            | None => false end); [done|].
  simpl. rewrite length_app, IH by done. simpl. lia.
Qed.

Lemma fetch_terminates owner repo timeFilter now api :
  outcome (fetchRun owner repo timeFilter now api 6) <> Looping.
Proof.
  unfold fetchRun. intros Hl.
  pose proof (looping_requests owner repo (getStartDate timeFilter now) api 6 Hl) as H.
  destruct (run_reqInv owner repo (getStartDate timeFilter now) api 6 (initState 1))
    as [H5 _].
  { split; [simpl; lia | intros _; reflexivity]. }
  lia.
Qed.

End PaginationFacts.

(* ================================================================== *)
(** * The claims *)

Import Aggregator DateUtils Pagination Fixtures.

(** C1 (user path).  The [totalStats] rollup of [fetchUserStats] counts a
    PR that is merged while its state is "open" both in [mergedPRs] and in
    [openPRs]: for the one-item search result [openItemNoPullRequest]
    (state "open", no [pull_request] object, hence [merged = true]),
    [totalPRs = 1] but [mergedPRs + openPRs + closedPRs = 2], while the
    repository-path reducer on the same PR list stays balanced. *)
Theorem userTotalStats_merged_open_unbalanced :
  let prs := [UserSearch.mapSearchItem "alice" openItemNoPullRequest] in
  merged (UserSearch.mapSearchItem "alice" openItemNoPullRequest) = true /\
  state (UserSearch.mapSearchItem "alice" openItemNoPullRequest) = Open /\
  t_totalPRs (userTotalStats prs) = 1%nat /\
  (t_mergedPRs (userTotalStats prs) + t_openPRs (userTotalStats prs)
     + t_closedPRs (userTotalStats prs) = 2)%nat /\
  map (fun c => (totalPRs c, mergedPRs c, openPRs c, closedPRs c))
      (calculateContributorStats prs ∅) = [(1, 1, 0, 0)%nat].
Proof. vm_compute. repeat split. Qed.

(** C2.  For every owner, repo, time filter, clock and endpoint behaviour,
    every run of the [fetchPullRequests] loop has issued at most
    [MAX_PAGES] = 5 page requests; and when every page holds at most
    [PER_PAGE] = 100 items (as requested by [per_page]), even an endpoint
    returning full pages forever, the loop has accumulated at most
    [MAX_PRS] = 500 pull requests. *)
Theorem fetchPullRequests_bounded (owner repo : string) (timeFilter : TimeFilter)
    (now : Z) (api : PullsApi) :
  (forall n, Z.of_nat (length (requested (fetchRun owner repo timeFilter now api n)))
             <= MAX_PAGES) /\
  ((forall p data, api p = inr data -> Z.of_nat (length data) <= PER_PAGE) ->
   forall n, Z.of_nat (length (allPRs (fetchRun owner repo timeFilter now api n)))
             <= MAX_PRS).
Proof.
  split.
  - intros n. unfold fetchRun.
    destruct (PaginationFacts.run_reqInv owner repo (getStartDate timeFilter now) api n
                (initState 1)) as [H _].
    { split; [simpl; lia | intros _; reflexivity]. }
    unfold MAX_PAGES. lia.
  - intros Hpage n. unfold fetchRun.
    destruct (PaginationFacts.run_reqInv owner repo (getStartDate timeFilter now) api n
                (initState 1)) as [H _].
    { split; [simpl; lia | intros _; reflexivity]. }
    pose proof (PaginationFacts.run_itemInv owner repo (getStartDate timeFilter now) api
                  Hpage n (initState 1)) as Hi.
    unfold Invariants.itemInv in Hi. simpl in Hi.
    unfold MAX_PRS. lia.
Qed.

Lemma fetchPullRequests_bounded_witness :
  (forall p data, fullPagesForever 1000 p = inr data ->
                  Z.of_nat (length data) <= PER_PAGE) /\
  Z.of_nat (length (allPRs
     (fetchRun "octo" "demo" AllTime 5000 (fullPagesForever 1000) 9))) <= MAX_PRS.
Proof.
  assert (Hp : forall p data, fullPagesForever 1000 p = inr data ->
                 Z.of_nat (length data) <= PER_PAGE).
  { intros p data H. injection H as <-. vm_compute. discriminate. }
  split; [exact Hp|].
  exact (proj2 (fetchPullRequests_bounded "octo" "demo" AllTime 5000
                  (fullPagesForever 1000)) Hp 9%nat).
Defined.

(** C8.  When the loop is about to request a page (guard true) and the
    endpoint answers it with exactly [PER_PAGE] = 100 items whose last
    (oldest) item was created strictly before [startDate], the loop
    returns after that page: that page is the last request, however many
    further steps are taken. *)
Theorem fetch_stops_after_full_page_older_than_start
    (owner repo : string) (startDate : Z) (api : PullsApi) (s : FetchState)
    (data : list RawPR) (oldest : RawPR) :
  outcome s = Looping ->
  currentPage s <= MAX_PAGES ->
  Z.of_nat (length (allPRs s)) < MAX_PRS ->
  api (currentPage s) = inr data ->
  Z.of_nat (length data) = PER_PAGE ->
  last data = Some oldest ->
  r_created_at oldest < startDate ->
  forall n,
    requested (run owner repo startDate api (S n) s) = requested s ++ [currentPage s] /\
    outcome (run owner repo startDate api (S n) s) = Returned.
Proof.
  intros Ho Hc Hl Ha Hd Hlast Hold n.
  rewrite PaginationFacts.run_S.
  assert (Hstep : outcome (step owner repo startDate api s) = Returned /\
                  requested (step owner repo startDate api s)
                  = requested s ++ [currentPage s]).
  { unfold step. rewrite Ho.
    apply Z.leb_le in Hc. apply Z.ltb_lt in Hl. rewrite Hc, Hl. simpl.
    rewrite Ha.
    assert (Hne : Nat.eqb (length data) 0 = false).
    { apply Nat.eqb_neq. unfold PER_PAGE in Hd. lia. }
    rewrite Hne. rewrite Hd, Z.ltb_irrefl, Hlast.
    apply Z.ltb_lt in Hold. rewrite Hold. simpl. done. }
  destruct Hstep as [H1 H2].
  rewrite PaginationFacts.run_finished by (rewrite H1; discriminate).
  done.
Qed.

Lemma fetch_stops_after_full_page_older_than_start_witness :
  requested (run "octo" "demo" 10 (fullPagesForever 0) 8 (initState 1)) = [1] /\
  outcome (run "octo" "demo" 10 (fullPagesForever 0) 8 (initState 1)) = Returned.
Proof.
  exact (fetch_stops_after_full_page_older_than_start "octo" "demo" 10
    (fullPagesForever 0) (initState 1) (repeat (rawAt 0) 100) (rawAt 0)
    eq_refl ltac:(vm_compute; discriminate) ltac:(vm_compute; reflexivity)
    eq_refl ltac:(vm_compute; reflexivity) ltac:(vm_compute; reflexivity)
    ltac:(vm_compute; reflexivity) 7%nat).
Defined.

Module CacheFacts.
Import Cache Invariants.

Section Facts.
Context {Ser : Type} (stringify : json -> Ser) (parse : Ser -> option json).

Abbreviation get := (get parse).
Abbreviation set := (set stringify).
Abbreviation getOrFetch := (getOrFetch stringify parse).
Abbreviation memoryGet := (memoryGet parse).
Abbreviation nullOnly := (Invariants.nullOnly parse).
Implicit Types st : @CacheState Ser.

Lemma degraded_withMemory st m : degraded st -> degraded (withMemory st m).
Proof. done. Qed.

Lemma get_degraded st k now : degraded st -> get st k now = memoryGet st k now.
Proof.
  unfold Cache.get, redisGet. intros [H|H]; rewrite H; [done|].
  destruct (useMemoryFallback st); done.
Qed.

Lemma set_degraded st k v ttl now : degraded st ->
  set st k v ttl now
  = withMemory st (<[k := mkEntry (stringify v) (now + ttl * 1000)]> (memoryCache st)).
Proof.
  unfold Cache.set. intros [H|H]; rewrite H; [done|].
  destruct (useMemoryFallback st); done.
Qed.

Lemma memoryGet_degraded st k now : degraded st -> degraded (snd (memoryGet st k now)).
Proof.
  unfold Cache.memoryGet. intros H.
  destruct (memoryCache st !! k); [|done].
  destruct (now >? expiry e); [done|]. destruct (parse (value e)); done.
Qed.

(** Only values of [json_ok] (what [JSON.stringify] can write) are
    decoded back to themselves. *)
Variable json_ok : json -> Prop.
Hypothesis parse_stringify : forall v, json_ok v -> parse (stringify v) = Some v.

Lemma memory_set_get st k v ttl t t' : degraded st -> json_ok v ->
  fst (get (set st k v ttl t) k t')
  = if t' >? t + ttl * 1000 then Ok JNull else Ok v.
Proof.
  intros Hd Hv. rewrite set_degraded by done.
  rewrite get_degraded by (apply degraded_withMemory; done).
  unfold Cache.memoryGet, withMemory. simpl. rewrite lookup_insert_eq. simpl.
  destruct (t' >? t + ttl * 1000); [done|]. by rewrite parse_stringify.
Qed.

Lemma memoryGet_nullOnly st k t : nullOnly st k ->
  fst (memoryGet st k t) = Ok JNull /\ nullOnly (snd (memoryGet st k t)) k.
Proof.
  intros Hn. pose proof Hn as [Hm Hr]. unfold Cache.memoryGet.
  destruct (memoryCache st !! k) as [e|] eqn:He;
    [|split; [done | exact Hn]].
  destruct (t >? expiry e).
  - split; [done|]. unfold nullOnly; simpl. split; [|exact Hr].
    intros e'. by rewrite lookup_delete_eq.
  - rewrite (Hm e eq_refl). split; [done | exact Hn].
Qed.

Lemma get_nullOnly st k t : nullOnly st k ->
  fst (get st k t) = Ok JNull /\ nullOnly (snd (get st k t)) k.
Proof.
  intros Hn. unfold Cache.get.
  destruct (useMemoryFallback st); [by apply memoryGet_nullOnly|].
  unfold redisGet. destruct (clientUp st); [|by apply memoryGet_nullOnly].
  destruct (redis st !! k) as [[v exp]|] eqn:Hk; [|split; [done | exact Hn]].
  destruct (t <=? exp); [|split; [done | exact Hn]].
  rewrite (proj2 Hn v exp Hk). split; [done | exact Hn].
Qed.

Lemma set_nullOnly st k ttl t : json_ok JNull -> nullOnly st k ->
  nullOnly (set st k JNull ttl t) k.
Proof.
  intros Hnull [Hm Hr]. unfold Cache.set, nullOnly.
  destruct (useMemoryFallback st).
  - simpl. split; [|exact Hr]. intros e. rewrite lookup_insert_eq.
    intros [= <-]. simpl. by apply parse_stringify.
  - destruct (clientUp st && (0 <? ttl)); simpl.
    + split; [exact Hm|]. intros v exp. rewrite lookup_insert_eq.
      intros [= <- _]. by apply parse_stringify.
    + split; [|exact Hr]. intros e. rewrite lookup_insert_eq.
      intros [= <-]. simpl. by apply parse_stringify.
Qed.

End Facts.

End CacheFacts.

Module CacheKeyFacts.
Import CACHE_KEYS.

Lemma split_at_colon (a b x y : string) :
  noColon a = true -> noColon b = true ->
  a +:+ String ":" x = b +:+ String ":" y -> a = b /\ x = y.
Proof.
  revert b. induction a as [|c a IH]; intros b Ha Hb H; destruct b as [|d b]; simpl in *.
  - by injection H.
  - injection H as Hc _. subst d. simpl in Hb. discriminate.
  - injection H as Hc _. subst c. simpl in Ha. discriminate.
  - apply andb_true_iff in Ha as [_ Ha]. apply andb_true_iff in Hb as [_ Hb].
    injection H as -> H. destruct (IH b Ha Hb H) as [-> ->]. done.
Qed.

End CacheKeyFacts.

(** C3 (counterexample).  The repository-stats key of a query with an
    empty branch filter and of a query for the branch named "all" are the
    same string. *)
Lemma repoStats_empty_branch_collides_with_all :
  CACHE_KEYS.repoStats "octo" "demo" "" "2w"
  = CACHE_KEYS.repoStats "octo" "demo" "all" "2w".
Proof. reflexivity. Qed.

(** C3 (amended).  The key builder is a function of (owner, repo, branch,
    filter), so identical queries share a key; and when owner, repo and the
    normalised branch ([branch || "all"]) contain no ':', two keys are
    equal exactly when the owners, the repos, the normalised branches and
    the filters are equal. *)
Theorem repoStats_key_injective (o1 r1 b1 f1 o2 r2 b2 f2 : string) :
  CACHE_KEYS.noColon o1 = true -> CACHE_KEYS.noColon r1 = true ->
  CACHE_KEYS.noColon (CACHE_KEYS.branchOrAll b1) = true ->
  CACHE_KEYS.noColon o2 = true -> CACHE_KEYS.noColon r2 = true ->
  CACHE_KEYS.noColon (CACHE_KEYS.branchOrAll b2) = true ->
  CACHE_KEYS.repoStats o1 r1 b1 f1 = CACHE_KEYS.repoStats o2 r2 b2 f2 <->
  o1 = o2 /\ r1 = r2 /\
  CACHE_KEYS.branchOrAll b1 = CACHE_KEYS.branchOrAll b2 /\ f1 = f2.
Proof.
  intros Ho1 Hr1 Hb1 Ho2 Hr2 Hb2. unfold CACHE_KEYS.repoStats. split.
  - simpl. intros H. injection H as H.
    destruct (CacheKeyFacts.split_at_colon _ _ _ _ Ho1 Ho2 H) as [-> H1].
    destruct (CacheKeyFacts.split_at_colon _ _ _ _ Hr1 Hr2 H1) as [-> H2].
    destruct (CacheKeyFacts.split_at_colon _ _ _ _ Hb1 Hb2 H2) as [Hb ->].
    done.
  - intros (-> & -> & Hb & ->). by rewrite Hb.
Qed.

Lemma repoStats_key_injective_witness :
  (CACHE_KEYS.repoStats "octo" "demo" "main" "2w"
   = CACHE_KEYS.repoStats "octo" "demo" "main" "2w" <->
   "octo" = "octo" /\ "demo" = "demo" /\
   CACHE_KEYS.branchOrAll "main" = CACHE_KEYS.branchOrAll "main" /\
   "2w" = "2w")%string.
Proof.
  apply repoStats_key_injective; vm_compute; reflexivity.
Defined.

Module MaintainersFacts.
Import Cache Maintainers.

Lemma omap_strings_of_logins (l : list Collaborator) :
  omap (fun j => match j with JStr s => Some s | _ => None end)
       (map (fun c => JStr (c_login c)) l) = map c_login l.
Proof. induction l as [|c l IH]; simpl; [done|]. f_equal. exact IH. Qed.

End MaintainersFacts.

Import Cache.

Section CacheClaims.
Context {Ser : Type} (stringify : json -> Ser) (parse : Ser -> option json).
Variable json_ok : json -> Prop.
Hypothesis parse_stringify : forall v, json_ok v -> parse (stringify v) = Some v.

(** C5.  In the in-process store (degraded mode: fallback flag set or
    every Redis call rejected), [set(key, v, ttl)] followed at the same
    clock reading by [get(key)] returns [v]; at any clock reading more than
    [ttl] seconds after the [set], [get(key)] returns [null]. *)
Theorem cache_set_get_roundtrip_memory (st : @CacheState Ser) (k : string)
    (v : json) (ttl t : Z) :
  Invariants.degraded st -> json_ok v -> 0 < ttl ->
  fst (Cache.get parse (Cache.set stringify st k v ttl t) k t) = Ok v /\
  (forall t', t + ttl * 1000 < t' ->
     fst (Cache.get parse (Cache.set stringify st k v ttl t) k t') = Ok JNull).
Proof.
  intros Hd Hv Httl. split.
  - rewrite (CacheFacts.memory_set_get stringify parse json_ok parse_stringify)
      by done.
    destruct (t >? t + ttl * 1000) eqn:E; [|done]. apply Z.gtb_lt in E. lia.
  - intros t' Ht'.
    rewrite (CacheFacts.memory_set_get stringify parse json_ok parse_stringify)
      by done.
    destruct (t' >? t + ttl * 1000) eqn:E; [done|].
    rewrite Z.gtb_ltb in E. apply Z.ltb_ge in E. lia.
Qed.

(** C4 (amended).  In degraded mode, for a key the store misses and a
    [fetchFn] resolving to a non-null JSON value [v], [getOrFetch]
    returns [v] (invoking [fetchFn], no store error surfacing), and a
    second [getOrFetch] for the key read no later than [ttl] seconds
    after the first call's store returns [v] without invoking its
    [fetchFn], whatever that one would produce. *)
Theorem getOrFetch_degraded_nonnull (st : @CacheState Ser) (k : string)
    (v : json) (ttl tGet1 tSet1 tGet2 tSet2 : Z) (fetched2 : res json) :
  Invariants.degraded st ->
  fst (Cache.get parse st k tGet1) = Ok JNull ->
  json_ok v -> v <> JNull -> tGet2 <= tSet1 + ttl * 1000 ->
  exists st1,
    Cache.getOrFetch stringify parse st k (Ok v) ttl tGet1 tSet1 = (Ok v, st1, true) /\
    fst (fst (Cache.getOrFetch stringify parse st1 k fetched2 ttl tGet2 tSet2)) = Ok v /\
    snd (Cache.getOrFetch stringify parse st1 k fetched2 ttl tGet2 tSet2) = false.
Proof.
  intros Hd Hmiss Hv Hnn Ht.
  unfold Cache.getOrFetch at 1.
  destruct (Cache.get parse st k tGet1) as [r0 st0] eqn:Hg. simpl in Hmiss. subst r0.
  assert (Hd0 : Invariants.degraded st0).
  { rewrite CacheFacts.get_degraded in Hg by done.
    pose proof (CacheFacts.memoryGet_degraded parse st k tGet1 Hd) as H.
    by rewrite Hg in H. }
  eexists. split; [reflexivity|].
  unfold Cache.getOrFetch.
  pose proof (CacheFacts.memory_set_get stringify parse json_ok parse_stringify
                st0 k v ttl tSet1 tGet2 Hd0 Hv) as Hget.
  destruct (tGet2 >? tSet1 + ttl * 1000) eqn:E.
  { apply Z.gtb_lt in E. lia. }
  destruct (Cache.get parse (Cache.set stringify st0 k v ttl tSet1) k tGet2)
    as [r2 st2]. simpl in Hget. subst r2.
  destruct v; done.
Qed.

(** C10.  The cache cannot hold a [null]: from any state in which every
    stored copy of [k] (if any) decodes to [null] [get(k)] returns [null],
    exactly as for an absent key; and a run of [getOrFetch(k, fetchFn, ttl)]
    calls whose [fetchFn] resolves to [null] invokes [fetchFn] at every
    call, whatever the clock readings and TTLs, returning [null] each
    time. *)
Theorem null_results_never_served_from_cache (st : @CacheState Ser) (k : string)
    (t : Z) (calls : list (Z * Z * Z)) :
  json_ok JNull -> Invariants.nullOnly parse st k ->
  fst (Cache.get parse st k t) = Ok JNull /\
  Forall (fun r => r = (Ok JNull, true))
    (Cache.getOrFetchCalls stringify parse st k (Ok JNull) calls).
Proof.
  intros Hnull Hn. split; [by apply CacheFacts.get_nullOnly|].
  revert st Hn. induction calls as [|[[ttl tg] ts] calls IH]; intros st Hn; simpl;
    [constructor|].
  unfold Cache.getOrFetch.
  destruct (CacheFacts.get_nullOnly parse st k tg Hn) as [H1 H2].
  destruct (Cache.get parse st k tg) as [r0 st0]. simpl in H1, H2. subst r0.
  constructor; [done|]. apply IH.
  by apply (CacheFacts.set_nullOnly stringify parse json_ok parse_stringify).
Qed.

(** C9.  When the lookup of [maintainers:owner:repo] misses,
    [fetchMaintainers] resolves (never rejects): to the empty set when
    [listCollaborators] rejects with any error, and otherwise to the set
    of logins of the listed collaborators with push or admin
    permission. *)
Theorem fetchMaintainers_best_effort (st : @CacheState Ser) (owner repo : string)
    (tGet tSet : Z) :
  fst (Cache.get parse st (CACHE_KEYS.maintainers owner repo) tGet) = Ok JNull ->
  (forall e, fst (Maintainers.fetchMaintainers stringify parse st owner repo
                    (Err e) tGet tSet) = Ok ∅) /\
  (forall cs, fst (Maintainers.fetchMaintainers stringify parse st owner repo
                     (Ok cs) tGet tSet)
              = Ok (list_to_set (map Maintainers.c_login
                      (filter (fun c => Maintainers.pushOrAdmin c = true) cs)))).
Proof.
  intros Hmiss. unfold Maintainers.fetchMaintainers, Cache.getOrFetch.
  destruct (Cache.get parse st (CACHE_KEYS.maintainers owner repo) tGet)
    as [r0 st0]. simpl in Hmiss. subst r0.
  split; [intros e; done|].
  intros cs. unfold Maintainers.maintainersFetch, Maintainers.toSet.
  rewrite MaintainersFacts.omap_strings_of_logins. done.
Qed.

End CacheClaims.

(** The identity codec on [json], under which every value round-trips. *)
Lemma id_codec_roundtrip : forall v : json, (fun _ => True) v -> Some (id v) = Some v.
Proof. done. Qed.

Lemma cache_set_get_roundtrip_memory_witness :
  fst (Cache.get Some (Cache.set id degradedEmpty "k" (JNum 7) 300 0) "k" 0) = Ok (JNum 7) /\
  fst (Cache.get Some (Cache.set id degradedEmpty "k" (JNum 7) 300 0) "k" 300001) = Ok JNull.
Proof.
  destruct (cache_set_get_roundtrip_memory id Some (fun _ => True) id_codec_roundtrip
              degradedEmpty "k" (JNum 7) 300 0 (or_introl eq_refl) I ltac:(lia))
    as [H1 H2].
  split; [exact H1 | apply H2; lia].
Defined.

(** C4 (counterexample).  In degraded mode, a [fetchFn] resolving to
    [null] is invoked again by a second [getOrFetch] one millisecond after
    the first, well within the 300 s TTL. *)
Lemma getOrFetch_null_recomputed_within_ttl :
  snd (Cache.getOrFetch id Some
         (snd (fst (Cache.getOrFetch id Some degradedEmpty "k" (Ok JNull) 300 0 0)))
         "k" (Ok JNull) 300 1 1) = true.
Proof. vm_compute. reflexivity. Qed.

Lemma getOrFetch_degraded_nonnull_witness :
  exists st1,
    Cache.getOrFetch id Some degradedEmpty "k" (Ok (JNum 7)) 300 0 0 = (Ok (JNum 7), st1, true) /\
    fst (fst (Cache.getOrFetch id Some st1 "k" (Ok (JNum 8)) 300 1000 1000)) = Ok (JNum 7) /\
    snd (Cache.getOrFetch id Some st1 "k" (Ok (JNum 8)) 300 1000 1000) = false.
Proof.
  apply (getOrFetch_degraded_nonnull id Some (fun _ => True) id_codec_roundtrip);
    [left; reflexivity | vm_compute; reflexivity | exact I | discriminate | lia].
Defined.

Lemma null_results_never_served_from_cache_witness :
  fst (Cache.get Some degradedEmpty "k" 0) = Ok JNull /\
  Forall (fun r => r = (Ok JNull, true))
    (Cache.getOrFetchCalls id Some degradedEmpty "k" (Ok JNull)
       [(300, 0, 0); (300, 1, 1); (300, 2, 2)]).
Proof.
  apply (null_results_never_served_from_cache id Some (fun _ => True) id_codec_roundtrip);
    [exact I | split; intros; vm_compute in *; discriminate].
Defined.

Lemma fetchMaintainers_best_effort_witness :
  (forall e, fst (Maintainers.fetchMaintainers id Some degradedEmpty "octo" "demo"
                    (Err e) 0 0) = Ok ∅) /\
  (forall cs, fst (Maintainers.fetchMaintainers id Some degradedEmpty "octo" "demo"
                     (Ok cs) 0 0)
              = Ok (list_to_set (map Maintainers.c_login
                      (filter (fun c => Maintainers.pushOrAdmin c = true) cs)))).
Proof.
  apply (fetchMaintainers_best_effort id Some degradedEmpty "octo" "demo" 0 0).
  vm_compute. reflexivity.
Defined.

Module TimelineFacts.
Import DateUtils Timeline Invariants.

Lemma DAY_pos : 0 < DAY.
Proof. unfold DAY. lia. Qed.

Lemma nextLocalDay_utc t : nextLocalDay utc t = t + DAY.
Proof.
  unfold nextLocalDay, utcOfLocal, offsetAt. simpl.
  destruct (t <? 0); destruct (0 <=? t + 0 + DAY - 0); simpl;
    destruct (t + 0 + DAY - 0 <? 0); simpl; lia.
Qed.

Lemma utcCount_step cur endDate : cur <= endDate ->
  utcCount cur endDate = S (utcCount (cur + DAY) endDate).
Proof.
  intros H. pose proof DAY_pos as HD. unfold utcCount.
  replace (cur <=? endDate) with true by (symmetry; apply Z.leb_le; lia).
  destruct (cur + DAY <=? endDate) eqn:E.
  - apply Z.leb_le in E.
    replace (endDate - cur) with ((endDate - (cur + DAY)) + 1 * DAY) by lia.
    rewrite Z.div_add by lia.
    assert (0 <= (endDate - (cur + DAY)) / DAY) by (apply Z.div_pos; lia).
    rewrite <- Z2Nat.inj_succ by lia. f_equal; lia.
  - apply Z.leb_gt in E.
    rewrite (Z.div_small (endDate - cur) DAY) by lia. done.
Qed.

Lemma dateLoop_utc fuel cur endDate :
  (utcCount cur endDate <= fuel)%nat ->
  dateLoop utc fuel cur endDate
  = map (fun i => cur / DAY + Z.of_nat i) (seq 0 (utcCount cur endDate)).
Proof.
  pose proof DAY_pos as HD.
  revert cur. induction fuel as [|fuel IH]; intros cur Hf.
  - assert (utcCount cur endDate = O) as -> by lia. done.
  - simpl. destruct (cur <=? endDate) eqn:E.
    + apply Z.leb_le in E. rewrite (utcCount_step cur endDate E) in *.
      rewrite nextLocalDay_utc, IH by lia. simpl. f_equal; [unfold toDateString; lia|].
      rewrite <- seq_shift, map_map. apply map_ext. intros i.
      replace (cur + DAY) with (cur + 1 * DAY) by lia.
      rewrite Z.div_add by lia. lia.
    + unfold utcCount. rewrite E. done.
Qed.

Lemma rangeFuel_enough startDate endDate :
  (utcCount startDate endDate <= rangeFuel startDate endDate)%nat.
Proof.
  pose proof DAY_pos as HD. unfold utcCount, rangeFuel.
  destruct (startDate <=? endDate) eqn:E; [|lia].
  apply Z.leb_le in E.
  assert ((endDate - startDate) / DAY <= (endDate - startDate) / (DAY / 2)).
  { apply Z.div_le_compat_l; [lia | split; vm_compute; [reflexivity | discriminate]]. }
  assert (0 <= (endDate - startDate) / DAY) by (apply Z.div_pos; lia).
  lia.
Qed.

(** In a UTC process the date range is the dense run of UTC days from
    the start date's day, one per loop iteration. *)
Lemma generateDateRange_utc filter now :
  generateDateRange utc filter now
  = map (fun i => getStartDate filter now / DAY + Z.of_nat i)
        (seq 0 (utcCount (getStartDate filter now) now)).
Proof.
  unfold generateDateRange. apply dateLoop_utc, rangeFuel_enough.
Qed.

(** Start day and iteration count depend on the clock only through its
    UTC day. *)
Lemma startDay_count_by_day filter now1 now2 :
  now1 / DAY = now2 / DAY ->
  getStartDate filter now1 / DAY = getStartDate filter now2 / DAY /\
  utcCount (getStartDate filter now1) now1 = utcCount (getStartDate filter now2) now2.
Proof.
  pose proof DAY_pos as HD. intros Hday.
  assert (Hoff : forall c, 0 <= c ->
    (forall now, getStartDate filter now = now + (- c) * DAY) ->
    getStartDate filter now1 / DAY = getStartDate filter now2 / DAY /\
    utcCount (getStartDate filter now1) now1 = utcCount (getStartDate filter now2) now2).
  { intros c Hc Hs. rewrite !Hs, !Z.div_add by lia. split; [lia|].
    unfold utcCount.
    replace (now1 + - c * DAY <=? now1) with true by (symmetry; apply Z.leb_le; nia).
    replace (now2 + - c * DAY <=? now2) with true by (symmetry; apply Z.leb_le; nia).
    replace (now1 - (now1 + - c * DAY)) with (c * DAY) by lia.
    replace (now2 - (now2 + - c * DAY)) with (c * DAY) by lia. done. }
  destruct filter.
  - apply (Hoff 14); [lia | intros; simpl; lia].
  - apply (Hoff 30); [lia | intros; simpl; lia].
  - apply (Hoff 90); [lia | intros; simpl; lia].
  - apply (Hoff 180); [lia | intros; simpl; lia].
  - simpl. split; [done|]. unfold utcCount.
    destruct (0 <=? now1) eqn:E1; destruct (0 <=? now2) eqn:E2.
    + rewrite !Z.sub_0_r, Hday. done.
    + apply Z.leb_le in E1. apply Z.leb_gt in E2.
      assert (0 <= now1 / DAY) by (apply Z.div_pos; lia).
      assert (now2 / DAY < 0) by (apply Z.div_lt_upper_bound; lia). lia.
    + apply Z.leb_gt in E1. apply Z.leb_le in E2.
      assert (0 <= now2 / DAY) by (apply Z.div_pos; lia).
      assert (now1 / DAY < 0) by (apply Z.div_lt_upper_bound; lia). lia.
    + done.
Qed.

End TimelineFacts.

Import Timeline.

(** C6.  The activity timeline is not always dense: in a process whose
    local zone is America/New_York, at the clock reading
    2024-03-20T00:30:00Z with filter "2w", [setDate] steps through the
    spring-forward day in local time while [toDateString] reads UTC days,
    so the range repeats 2024-03-10 (day 19792) and ends before today
    (day 19802).  The timeline then has 14 entries instead of
    [daysBetween(startDate, today) + 1 = 15], and today has none. *)
Theorem activityTimeline_newYork_spring_forward :
  generateDateRange newYork2024 TwoWeeks march20_0030Z
    = [19788; 19789; 19790; 19791; 19792; 19792; 19793; 19794; 19795; 19796;
       19797; 19798; 19799; 19800; 19801] /\
  length (calculateActivityTimeline newYork2024 [] TwoWeeks march20_0030Z) = 14%nat /\
  expectedTimelineLength TwoWeeks march20_0030Z = 15 /\
  toDateString march20_0030Z = 19802 /\
  19802 ∉ map date (calculateActivityTimeline newYork2024 [] TwoWeeks march20_0030Z).
Proof.
  split; [vm_compute; reflexivity|].
  split; [vm_compute; reflexivity|].
  split; [vm_compute; reflexivity|].
  split; [vm_compute; reflexivity|].
  apply (bool_decide_unpack _). vm_compute. exact I.
Qed.

(** C7 (counterexample).  The aggregation reads the clock: the same
    (empty) PR list, maintainer set and filter aggregated on two
    consecutive UTC days give different activity timelines. *)
Lemma aggregate_depends_on_clock_day :
  aggregate utc [] ∅ TwoWeeks (19802 * DAY) <> aggregate utc [] ∅ TwoWeeks (19803 * DAY).
Proof.
  intros H. apply (f_equal snd) in H. vm_compute in H. discriminate H.
Qed.

(** C7 (amended).  The aggregation is a function of the PR list, the
    maintainer set, the time filter and the clock reading, and depends on
    the clock only through its calendar day: in a UTC process, two
    aggregations of the same inputs on the same UTC day are identical. *)
Theorem aggregate_same_utc_day_identical (prs : list PullRequest)
    (maintainers : gset string) (timeFilter : TimeFilter) (now1 now2 : Z) :
  toDateString now1 = toDateString now2 ->
  aggregate utc prs maintainers timeFilter now1
  = aggregate utc prs maintainers timeFilter now2.
Proof.
  intros Hday. unfold aggregate, calculateActivityTimeline.
  rewrite !TimelineFacts.generateDateRange_utc.
  destruct (TimelineFacts.startDay_count_by_day timeFilter now1 now2 Hday) as [H1 H2].
  by rewrite H1, H2.
Qed.

Lemma aggregate_same_utc_day_identical_witness :
  toDateString (19802 * DAY) = toDateString (19802 * DAY + 5000) /\
  aggregate utc [] ∅ AllTime (19802 * DAY) = aggregate utc [] ∅ AllTime (19802 * DAY + 5000).
Proof.
  assert (H : toDateString (19802 * DAY) = toDateString (19802 * DAY + 5000))
    by (vm_compute; reflexivity).
  split; [exact H | exact (aggregate_same_utc_day_identical [] ∅ AllTime _ _ H)].
Defined.

(* ------------------------------------------------------------------ *)
(** ** Properties of the added code *)

Module UrlParserFacts.
Import GitHubUrlParser.
Import Measures.

#[local] Arguments String.append : simpl nomatch.

Lemma sapp_assoc (a b c : string) : (a +:+ b) +:+ c = a +:+ (b +:+ c).
Proof. induction a as [|x a IH]; simpl; [done | by rewrite IH]. Qed.

Lemma sapp_nil (a : string) : a +:+ EmptyString = a.
Proof. induction a as [|x a IH]; simpl; [done | by rewrite IH]. Qed.

Lemma slength_app (a b : string) :
  String.length (a +:+ b) = (String.length a + String.length b)%nat.
Proof. induction a as [|x a IH]; simpl; [done | by rewrite IH]. Qed.

Lemma allChars_app f a b : allChars f (a +:+ b) = allChars f a && allChars f b.
Proof. induction a as [|x a IH]; simpl; [done | rewrite IH; by destruct (f x)]. Qed.

Lemma splitSlash_head a b : allChars notSlash a = true ->
  splitSlash (a +:+ String "/" b) = (a, String "/" b).
Proof.
  induction a as [|x a IH]; simpl; [done|].
  unfold notSlash at 1. destruct (Ascii.eqb x "/"); simpl; [done|].
  intros H. by rewrite IH.
Qed.

Lemma splitSlash_tail a t : allChars notSlash a = true ->
  (t = EmptyString \/ exists t', t = String "/" t') ->
  splitSlash (a +:+ t) = (a, t).
Proof.
  intros Ha [->|[t' ->]].
  - induction a as [|x a IH]; simpl in *; [done|].
    unfold notSlash in Ha. destruct (Ascii.eqb x "/"); simpl in *; [done|].
    by rewrite IH.
  - by apply splitSlash_head.
Qed.

Lemma twoSegments_ok a b t :
  a <> EmptyString -> b <> EmptyString ->
  allChars notSlash a = true -> allChars notSlash b = true ->
  (t = EmptyString \/ exists t', t = String "/" t') ->
  twoSegments (a +:+ String "/" (b +:+ t)) = Some (a, b, t).
Proof.
  intros Ha Hb Sa Sb Ht. unfold twoSegments.
  rewrite splitSlash_head by done. rewrite splitSlash_tail by done.
  destruct a; [done|]. destruct b; done.
Qed.

Ltac ascii_cases c := destruct c as [[] [] [] [] [] [] [] []].

Lemma ciEq_colon b : ciEq ":" b = true -> b = ":"%char.
Proof. ascii_cases b; vm_compute; congruence. Qed.
Lemma ciEq_dot b : ciEq "." b = true -> b = "."%char.
Proof. ascii_cases b; vm_compute; congruence. Qed.
Lemma ciEq_to_dot a : ciEq a "." = true -> a = "."%char.
Proof. ascii_cases a; vm_compute; congruence. Qed.
Lemma ciEq_to_slash a : ciEq a "/" = true -> a = "/"%char.
Proof. ascii_cases a; vm_compute; congruence. Qed.

Lemma ownerChar_safe d : (isAlnum d || Ascii.eqb d "-") = true ->
  notSlash d && notColon d && negb (Ascii.eqb d ".") && notTrimmed d = true.
Proof. ascii_cases d; vm_compute; congruence. Qed.

Lemma repoChar_safe d :
  (isAlnum d || Ascii.eqb d "." || Ascii.eqb d "_" || Ascii.eqb d "-") = true ->
  notSlash d && notColon d && notTrimmed d = true.
Proof. ascii_cases d; vm_compute; congruence. Qed.

Lemma allChars_impl (f g : ascii -> bool) s :
  (forall c, f c = true -> g c = true) -> allChars f s = true -> allChars g s = true.
Proof.
  intros Hfg. induction s as [|c s IH]; simpl; [done|].
  intros [Hc Hs]%andb_prop. rewrite (Hfg c Hc). by apply IH.
Qed.

Lemma ownerPattern_chars o : ownerPattern o = true ->
  o <> EmptyString /\ allChars (fun d => isAlnum d || Ascii.eqb d "-") o = true.
Proof.
  destruct o as [|c o]; simpl; [done|]. intros H. split; [done|].
  destruct o as [|c' o]; [by rewrite H|].
  apply andb_prop in H as [H _]. apply andb_prop in H as [H1 H2].
  rewrite H1. simpl. exact H2.
Qed.

Lemma repoPattern_chars r : repoPattern r = true ->
  r <> EmptyString /\
  allChars (fun d => isAlnum d || Ascii.eqb d "." || Ascii.eqb d "_" || Ascii.eqb d "-") r = true.
Proof. destruct r as [|c r]; [done|]. intros H. split; [done | exact H]. Qed.

Lemma validateNames_ok o r : validateNames o r = None ->
  ownerPattern o = true /\ repoPattern r = true /\
  (String.length o <= 39)%nat /\ (String.length r <= 100)%nat.
Proof.
  unfold validateNames.
  destruct (ownerPattern o), (repoPattern r); simpl; try done.
  destruct (39 <? String.length o)%nat eqn:E1; [done|].
  destruct (100 <? String.length r)%nat eqn:E2; [done|].
  apply Nat.ltb_ge in E1, E2. done.
Qed.

(** The character classes a valid owner and repository name are made of. *)
Lemma valid_names_chars o r : validateNames o r = None ->
  o <> EmptyString /\ r <> EmptyString /\
  allChars notSlash o = true /\ allChars notColon o = true /\
  allChars (fun d => negb (Ascii.eqb d ".")) o = true /\ allChars notTrimmed o = true /\
  allChars notSlash r = true /\ allChars notColon r = true /\ allChars notTrimmed r = true.
Proof.
  intros H. destruct (validateNames_ok o r H) as (Ho & Hr & _).
  destruct (ownerPattern_chars o Ho) as [Ho1 Ho2].
  destruct (repoPattern_chars r Hr) as [Hr1 Hr2].
  repeat split; try done;
    (eapply allChars_impl; [|eassumption]); intros c Hc;
    first [pose proof (ownerChar_safe c Hc) as Hs | pose proof (repoChar_safe c Hc) as Hs];
    repeat (apply andb_prop in Hs as [Hs ?]); done.
Qed.

Lemma trimEnd_id s : allChars notTrimmed s = true -> trimEnd s = s.
Proof.
  induction s as [|c s IH]; simpl; [done|].
  intros [Hc Hs]%andb_prop. rewrite IH by done.
  destruct s; [|done]. unfold notTrimmed in Hc. by destruct (isTrimmed c).
Qed.

Lemma trimStart_id s : allChars notTrimmed s = true -> trimStart s = s.
Proof.
  destruct s as [|c s]; simpl; [done|]. intros [Hc _]%andb_prop.
  unfold notTrimmed in Hc. by destruct (isTrimmed c).
Qed.

Lemma trim_id s : allChars notTrimmed s = true -> trim s = s.
Proof. intros H. unfold trim. rewrite trimStart_id by done. by apply trimEnd_id. Qed.

Lemma parse_trimmed s : s <> EmptyString -> allChars notTrimmed s = true ->
  parse s = tryPatterns PATTERNS (stripGit s) s.
Proof.
  intros Hne Ht. destruct s as [|c s]; [done|]. unfold parse.
  rewrite trim_id by done. done.
Qed.

Lemma stripGit_cons c s : stripGit (String c s)
  = if String.eqb (String c s) ".git" then EmptyString else String c (stripGit s).
Proof. reflexivity. Qed.

Lemma sapp_cons c a b : String c a +:+ b = String c (a +:+ b).
Proof. reflexivity. Qed.

Lemma stripGit_slash a b : stripGit (a +:+ String "/" b) = a +:+ String "/" (stripGit b).
Proof.
  assert (Hne : forall x, allChars notSlash x = false -> String.eqb x ".git" = false).
  { intros x Hx. destruct (String.eqb_spec x ".git"); [subst; done | done]. }
  induction a as [|c a IH].
  - change (stripGit (String "/" b) = String "/" (stripGit b)).
    rewrite stripGit_cons, Hne by done. done.
  - rewrite sapp_cons, stripGit_cons, Hne, IH; [done|].
    simpl. rewrite allChars_app. simpl. unfold notSlash at 2. simpl.
    by rewrite !andb_false_r.
Qed.

Lemma stripGit_noGit r : endsWithGit r = false -> stripGit r = r.
Proof.
  induction r as [|c r IH]; [done|]. intros H.
  change ((String.eqb (String c r) ".git" || endsWithGit r)%bool = false) in H.
  apply orb_false_iff in H as [H1 H2]. rewrite stripGit_cons, H1. by rewrite IH.
Qed.

Lemma stripGit_git r : stripGit (r +:+ ".git") = r.
Proof.
  induction r as [|c r IH]; [done|]. rewrite sapp_cons, stripGit_cons.
  destruct (String.eqb_spec (String c (r +:+ ".git")) ".git") as [E|E].
  - apply (f_equal String.length) in E. simpl in E.
    rewrite slength_app in E. simpl in E. lia.
  - by rewrite IH.
Qed.

Lemma stripPrefixCI_suffix p s s' : stripPrefixCI p s = Some s' -> exists q, s = q +:+ s'.
Proof.
  revert s. induction p as [|a p IH]; intros s H; simpl in H.
  - injection H as <-. by exists EmptyString.
  - destruct s as [|b s]; [done|]. destruct (ciEq a b); [|done].
    destruct (IH s H) as [q ->]. by exists (String b q).
Qed.

Lemma allChars_suffix f q s : allChars f (q +:+ s) = true -> allChars f s = true.
Proof. rewrite allChars_app. by intros [_ H]%andb_prop. Qed.

Lemma strip_colon p t : allChars notColon t = true -> stripPrefixCI (String ":" p) t = None.
Proof.
  destruct t as [|c t]; simpl; [done|]. intros [Hc _]%andb_prop.
  destruct (ciEq ":" c) eqn:E; [|done].
  apply ciEq_colon in E. subst. done.
Qed.

Lemma optThen_none {A} (x : string -> option string) (k : string -> option A) s :
  (forall s', x s = Some s' -> k s' = None) -> k s = None -> optThen x k s = None.
Proof.
  intros H1 H2. unfold optThen. destruct (x s) eqn:E; [|done].
  rewrite (H1 s0 eq_refl). done.
Qed.

Lemma fullUrl_colonFree s : allChars notColon s = true -> fullUrl s = None.
Proof.
  intros Hs. unfold fullUrl.
  destruct (stripPrefixCI "http" s) as [s1|] eqn:E1; [|done].
  destruct (stripPrefixCI_suffix _ _ _ E1) as [q1 ->].
  apply allChars_suffix in Hs.
  apply optThen_none.
  - intros s2 E2. destruct (stripPrefixCI_suffix _ _ _ E2) as [q2 ->].
    apply allChars_suffix in Hs. by rewrite strip_colon.
  - by rewrite strip_colon.
Qed.

Lemma strip_dot p t : dotBeforeSlash p = true -> dotFreeHead t = true ->
  stripPrefixCI p t = None.
Proof.
  revert t. induction p as [|a p IH]; intros t Hp Ht; [done|].
  destruct t as [|b t]; [done|]. simpl.
  destruct (ciEq a b) eqn:E; [|done].
  simpl in Hp, Ht.
  destruct (Ascii.eqb_spec a ".") as [->|Ha].
  - apply ciEq_dot in E. subst. done.
  - destruct (Ascii.eqb_spec a "/") as [->|Ha']; [done|].
    destruct (Ascii.eqb_spec b "/") as [->|Hb].
    + apply ciEq_to_slash in E. done.
    + destruct (Ascii.eqb_spec b ".") as [->|Hb'].
      * apply ciEq_to_dot in E. done.
      * by apply IH.
Qed.

Lemma shortUrl_dotFree s : dotFreeHead s = true -> shortUrl s = None.
Proof.
  intros Hs. unfold shortUrl, optThen.
  rewrite (strip_dot "www.") by done. rewrite (strip_dot "github.com/") by done. done.
Qed.

Lemma dotFreeHead_owner o t : allChars (fun d => negb (Ascii.eqb d ".")) o = true ->
  allChars notSlash o = true -> dotFreeHead (o +:+ String "/" t) = true.
Proof.
  induction o as [|c o IH]; simpl; [done|].
  intros [H1 H2]%andb_prop [H3 H4]%andb_prop. unfold notSlash in H3.
  destruct (Ascii.eqb c "/"); [done|]. destruct (Ascii.eqb c "."); [done|]. by apply IH.
Qed.

Lemma segments_ok o r t : validateNames o r = None -> (t = EmptyString \/ t = "/") ->
  segmentsOptSlash (o +:+ String "/" (r +:+ t)) = Some (o, r).
Proof.
  intros Hv Ht. destruct (valid_names_chars o r Hv) as (Ho & Hr & So & _ & _ & _ & Sr & _).
  unfold segmentsOptSlash. rewrite twoSegments_ok; try done.
  - by destruct Ht as [-> | ->].
  - destruct Ht as [-> | ->]; [by left | right; by exists EmptyString].
Qed.

(** Every accepted URL prefix routes [owner/repo] to the pattern that
    captures it. *)
Lemma route_prefix pre X (a b : string) t : In pre urlPrefixes ->
  segmentsOptSlash X = Some (a, b) ->
  tryPatterns PATTERNS (pre +:+ X) t
  = match validateNames a b with Some e => inl e | None => inr (mkParsed a b) end.
Proof.
  intros Hpre HX.
  repeat (destruct Hpre as [<-|Hpre]); [..|done];
    unfold tryPatterns, PATTERNS, fullUrl, shortUrl, simple, apiUrl, optThen;
    simpl; rewrite HX; reflexivity.
Qed.

Lemma parse_prefixed pre o r suf t : In pre urlPrefixes -> validateNames o r = None ->
  allChars notTrimmed suf = true -> stripGit (r +:+ suf) = r +:+ t ->
  (t = EmptyString \/ t = "/") ->
  parse (pre +:+ o +:+ "/" +:+ r +:+ suf) = inr (mkParsed o r).
Proof.
  intros Hpre Hv Hsuf Hstrip Ht.
  destruct (valid_names_chars o r Hv) as (Ho & _ & _ & _ & _ & To & _ & _ & Tr).
  rewrite parse_trimmed.
  - change ("/" +:+ r +:+ suf) with (String "/" (r +:+ suf)).
    rewrite <- sapp_assoc, stripGit_slash, Hstrip, sapp_assoc.
    rewrite (route_prefix pre _ o r) by (done || by apply segments_ok).
    by rewrite Hv.
  - repeat (destruct Hpre as [<-|Hpre]); [..|done]; discriminate.
  - rewrite !allChars_app, To, Tr, Hsuf. rewrite !andb_true_r.
    repeat (destruct Hpre as [<-|Hpre]); [..|done]; reflexivity.
Qed.

Lemma parse_simple o r suf : validateNames o r = None ->
  allChars notTrimmed suf = true -> stripGit (r +:+ suf) = r ->
  parse (o +:+ "/" +:+ r +:+ suf) = inr (mkParsed o r).
Proof.
  intros Hv Hsuf Hstrip.
  destruct (valid_names_chars o r Hv) as (Ho & Hr & So & Co & Do & To & Sr & Cr & Tr).
  rewrite parse_trimmed.
  - change ("/" +:+ r +:+ suf) with (String "/" (r +:+ suf)).
    rewrite stripGit_slash, Hstrip.
    unfold tryPatterns, PATTERNS.
    rewrite fullUrl_colonFree
      by (rewrite allChars_app, Co; exact Cr).
    rewrite shortUrl_dotFree by (by apply dotFreeHead_owner).
    unfold simple. rewrite <- (sapp_nil r) at 1.
    rewrite twoSegments_ok by (done || by left).
    cbv beta iota. by rewrite Hv.
  - destruct o; done.
  - rewrite !allChars_app. simpl. by rewrite To, Tr, Hsuf.
Qed.

End UrlParserFacts.

Module UrlParserRoundTrip.
Import GitHubUrlParser.

Lemma parse_valid s p : parse s = inr p -> validateNames (owner p) (repo p) = None.
Proof.
  unfold parse. destruct s as [|c s]; [done|].
  generalize (stripGit (trim (String c s))) (trim (String c s)).
  intros clean trimmed. generalize PATTERNS as pats.
  induction pats as [|pat pats IH]; simpl; [done|].
  destruct (pat _) as [[a b]|]; [|exact IH].
  destruct (validateNames a b) eqn:E; [done|]. intros [= <-]. exact E.
Qed.

(** X4.  [parse] accepts every documented format.  For an owner and repo
    that pass [validateNames], the repo not ending in ".git": each of the
    eight URL prefixes (http or https, with or without www., github.com or
    api.github.com/repos, and the scheme-less github.com and
    www.github.com) followed by owner/repo, owner/repo/ or owner/repo.git,
    the simple forms owner/repo and owner/repo.git, and the outputs of
    [buildUrl] and [buildApiUrl] all parse to that owner and repo. *)
Theorem parse_documented_formats (o r : string) :
  validateNames o r = None -> endsWithGit r = false ->
  Forall (fun pre => Forall (fun suf =>
      parse (pre +:+ o +:+ "/" +:+ r +:+ suf) = inr (mkParsed o r)) [""; "/"; ".git"])
    urlPrefixes /\
  Forall (fun suf => parse (o +:+ "/" +:+ r +:+ suf) = inr (mkParsed o r)) [""; ".git"] /\
  parse (buildUrl o r) = inr (mkParsed o r) /\
  parse (buildApiUrl o r) = inr (mkParsed o r).
Proof.
  intros Hv Hg.
  assert (H0 : stripGit (r +:+ "") = r +:+ "")
    by (rewrite UrlParserFacts.sapp_nil; by apply UrlParserFacts.stripGit_noGit).
  assert (H1 : stripGit (r +:+ "/") = r +:+ "/")
    by (change (stripGit (r +:+ String "/" "") = r +:+ "/");
        by rewrite UrlParserFacts.stripGit_slash).
  assert (H2 : stripGit (r +:+ ".git") = r +:+ "")
    by (rewrite UrlParserFacts.sapp_nil; apply UrlParserFacts.stripGit_git).
  assert (Hpre : forall pre, In pre urlPrefixes ->
    parse (pre +:+ o +:+ "/" +:+ r +:+ "") = inr (mkParsed o r))
    by (intros pre Hin; apply (UrlParserFacts.parse_prefixed pre o r "" ""); auto).
  split; [|split; [|split]].
  - apply List.Forall_forall. intros pre Hin.
    repeat constructor.
    + by apply Hpre.
    + apply (UrlParserFacts.parse_prefixed pre o r "/" "/"); auto.
    + apply (UrlParserFacts.parse_prefixed pre o r ".git" ""); auto.
  - repeat constructor.
    + apply UrlParserFacts.parse_simple; try done. by rewrite <- UrlParserFacts.sapp_nil.
    + apply UrlParserFacts.parse_simple; try done. by rewrite H2, UrlParserFacts.sapp_nil.
  - pose proof (Hpre "https://github.com/" ltac:(simpl; tauto)) as H.
    rewrite UrlParserFacts.sapp_nil in H. exact H.
  - pose proof (Hpre "https://api.github.com/repos/" ltac:(simpl; tauto)) as H.
    rewrite UrlParserFacts.sapp_nil in H. exact H.
Qed.

(** X5.  Every successful [parse] returns names that pass [validateNames];
    when the repo does not end in ".git", the canonical URL [buildUrl]
    of the result parses back to the same result, and [toShortFormat] of
    it is owner/repo. *)
Theorem parse_canonical_roundtrip (input : string) (p : ParsedRepo) :
  parse input = inr p -> endsWithGit (repo p) = false ->
  validateNames (owner p) (repo p) = None /\
  parse (buildUrl (owner p) (repo p)) = inr p /\
  toShortFormat (buildUrl (owner p) (repo p)) = inr (owner p +:+ "/" +:+ repo p).
Proof.
  intros Hp Hg. pose proof (parse_valid input p Hp) as Hv.
  assert (Hb : parse (buildUrl (owner p) (repo p)) = inr p).
  { unfold buildUrl. rewrite <- (UrlParserFacts.sapp_nil (repo p)).
    destruct p as [o r]. simpl in *.
    apply (UrlParserFacts.parse_prefixed "https://github.com/" o r "" ""); auto.
    - simpl; tauto.
    - rewrite UrlParserFacts.sapp_nil. by apply UrlParserFacts.stripGit_noGit. }
  split; [done|]. split; [done|]. unfold toShortFormat. by rewrite Hb.
Qed.

Lemma parse_documented_formats_witness :
  (validateNames "octo" "demo" = None /\ endsWithGit "demo" = false) /\
  Forall (fun pre => Forall (fun suf =>
      parse (pre +:+ "octo" +:+ "/" +:+ "demo" +:+ suf) = inr (mkParsed "octo" "demo")) [""; "/"; ".git"])
    urlPrefixes /\
  Forall (fun suf => parse ("octo" +:+ "/" +:+ "demo" +:+ suf) = inr (mkParsed "octo" "demo")) [""; ".git"] /\
  parse (buildUrl "octo" "demo") = inr (mkParsed "octo" "demo") /\
  parse (buildApiUrl "octo" "demo") = inr (mkParsed "octo" "demo").
Proof.
  split; [split; reflexivity|].
  apply (parse_documented_formats "octo" "demo"); reflexivity.
Defined.

Lemma parse_canonical_roundtrip_witness :
  (parse "  github.com/octo-cat/Hello.World.git " = inr (mkParsed "octo-cat" "Hello.World") /\
   endsWithGit "Hello.World" = false) /\
  validateNames "octo-cat" "Hello.World" = None /\
  parse (buildUrl "octo-cat" "Hello.World") = inr (mkParsed "octo-cat" "Hello.World") /\
  toShortFormat (buildUrl "octo-cat" "Hello.World") = inr ("octo-cat" +:+ "/" +:+ "Hello.World").
Proof.
  split; [split; [vm_compute; reflexivity|reflexivity]|].
  apply (parse_canonical_roundtrip "  github.com/octo-cat/Hello.World.git " (mkParsed "octo-cat" "Hello.World"));
    [vm_compute; reflexivity|reflexivity].
Defined.

End UrlParserRoundTrip.

Module DateFacts.
Import DateUtils DateUtilsMore.
#[local] Arguments String.append : simpl nomatch.

Lemma div_nonpos x b : x <= 0 -> 0 < b -> x / b <= 0.
Proof. intros. apply Z.div_le_upper_bound; lia. Qed.

Lemma ago_not_just_now n u : ago n u <> "just now".
Proof.
  unfold ago. generalize (showZ n +:+ " " +:+ u +:+ (if 1 <? n then "s" else "")) as X.
  intros X.
  destruct X as [|a [|b [|c [|d [|e X]]]]]; simpl; try discriminate.
  intros H. injection H as _ _ _ _ _ H.
  apply (f_equal String.length) in H.
  rewrite UrlParserFacts.slength_app in H. simpl in H. lia.
Qed.

Lemma minutes_pos diff : 0 < diff / 1000 / 60 <-> 60000 <= diff.
Proof.
  rewrite Z.div_div by lia. split; intros H.
  - destruct (Z_lt_le_dec diff 60000) as [Hl|]; [|lia].
    assert (diff / (1000*60) < 1); [|lia].
    apply Z.div_lt_upper_bound; lia.
  - apply Z.div_str_pos. lia.
Qed.


(** X2.  The filters of [isWithinFilter] are nested: a date within "2w" is
    within "1m", one within "1m" is within "3m", one within "3m" is within
    "6m", and, once the clock is at least 180 days past the epoch, one
    within "6m" is within "all".  An invalid date (a NaN [Date]) is within
    no filter. *)
Theorem isWithinFilter_nested (date : option Z) (now : Z) :
  (isWithinFilter date TwoWeeks now = true -> isWithinFilter date OneMonth now = true) /\
  (isWithinFilter date OneMonth now = true -> isWithinFilter date ThreeMonths now = true) /\
  (isWithinFilter date ThreeMonths now = true -> isWithinFilter date SixMonths now = true) /\
  (180 * DAY <= now ->
   isWithinFilter date SixMonths now = true -> isWithinFilter date AllTime now = true) /\
  (date = None -> forall f, isWithinFilter date f now = false).
Proof.
  destruct date as [d|]; unfold isWithinFilter, getStartDate, DAY;
    repeat split; intros; try lia; try congruence.
  all: rewrite Z.leb_le in *; lia.
Qed.

(** X3.  [getRelativeTime] answers "just now" exactly when the date is
    invalid or less than one minute before the clock reading (a date in
    the future included); every older date gets a "<n> <unit>(s) ago"
    answer. *)
Theorem getRelativeTime_just_now (date : option Z) (now : Z) :
  getRelativeTime date now = "just now" <->
  date = None \/ exists t, date = Some t /\ now - t < 60000.
Proof.
  destruct date as [t|]; [|split; auto]. simpl.
  set (diff := now - t).
  pose proof (minutes_pos diff) as Hm.
  split.
  - intros H. right. exists t. split; [done|].
    destruct (Z_lt_le_dec diff 60000) as [|Hle]; [done|exfalso].
    apply Hm in Hle.
    repeat match type of H with
    | context [if ?b then _ else _] => destruct b eqn:?; [by apply ago_not_just_now in H|]
    end.
    apply Z.ltb_lt in Hle. congruence.
  - intros [|[t' [[= <-] Hlt]]]; [done|].
    fold diff in Hlt.
    assert (Hmin : diff / 1000 / 60 <= 0) by (destruct (Z_le_gt_dec (diff / 1000 / 60) 0); [done|]; lia).
    pose proof (div_nonpos _ 60 Hmin ltac:(lia)) as Hh.
    pose proof (div_nonpos _ 24 Hh ltac:(lia)) as Hd.
    pose proof (div_nonpos _ 7 Hd ltac:(lia)) as Hw.
    pose proof (div_nonpos _ 30 Hd ltac:(lia)) as Hmo.
    repeat rewrite (proj2 (Z.ltb_ge _ _)) by lia. reflexivity.
Qed.

End DateFacts.

Module CacheOpsFacts.
Import Cache.

Section Facts.
Context {Ser : Type} (stringify : json -> Ser) (parse : Ser -> option json).
Implicit Types st : @CacheState Ser.

Lemma memoryGet_none st k now :
  memoryCache st !! k = None -> fst (memoryGet parse st k now) = Ok JNull.
Proof. unfold memoryGet. by intros ->. Qed.

Lemma memoryGet_same st st1 k now : memoryCache st1 !! k = memoryCache st !! k ->
  fst (memoryGet parse st1 k now) = fst (memoryGet parse st k now).
Proof.
  intros Hk. unfold memoryGet. rewrite Hk.
  destruct (memoryCache st !! k) as [e|]; [|done].
  destruct (now >? expiry e); [done|]. by destruct (parse (value e)).
Qed.

Lemma memoryGet_other st k k' now : k <> k' ->
  fst (memoryGet parse (withMemory st (base.delete k (memoryCache st))) k' now)
  = fst (memoryGet parse st k' now).
Proof.
  intros Hk. apply memoryGet_same. simpl. by rewrite lookup_delete_ne.
Qed.

(** X6.  After [delete k], in every mode and whatever the client does,
    [get k] returns null; [get] of any other key returns what it returned
    before the delete. *)
Theorem delete_get st k k' now :
  fst (get parse (CacheOps.delete st k) k now) = Ok JNull /\
  (k <> k' -> fst (get parse (CacheOps.delete st k) k' now) = fst (get parse st k' now)).
Proof.
  unfold CacheOps.delete, get, redisGet.
  destruct (useMemoryFallback st) eqn:Hf, (clientUp st) eqn:Hu; simpl; rewrite ?Hf, ?Hu;
    split; try intros Hk.
  all: try (apply memoryGet_none; simpl; apply lookup_delete_eq).
  all: try (by apply memoryGet_other).
  - by rewrite lookup_delete_eq.
  - rewrite lookup_delete_ne by done.
    destruct (redis st !! k') as [[v exp]|]; [|done].
    destruct (now <=? exp); [|done].
    destruct (parse v); [done|]. apply memoryGet_same. simpl. by rewrite lookup_delete_ne.
Qed.

(** X7.  After [flush], [get k] returns null for every key.  In
    memory-fallback mode [flush] does not touch the Redis store, so after
    the client's connect event (which clears the fallback flag) an
    unexpired Redis entry that decodes to [x] is served again. *)
Theorem flush_get st k now :
  fst (get parse (CacheOps.flush st) k now) = Ok JNull /\
  (useMemoryFallback st = true -> redis (CacheOps.flush st) = redis st /\
   forall v exp x, redis st !! k = Some (v, exp) -> (now <=? exp) = true -> parse v = Some x ->
   fst (get parse (CacheOps.onConnect (CacheOps.flush st)) k now) = Ok x).
Proof.
  unfold CacheOps.flush, get, redisGet.
  destruct (useMemoryFallback st) eqn:Hf, (clientUp st) eqn:Hu; simpl; rewrite ?Hf, ?Hu;
    (split; [try (apply memoryGet_none; done); by rewrite lookup_empty|]); try done.
  all: intros _; split; [done|]; intros v exp x Hr Hle Hp; unfold CacheOps.onConnect; simpl.
  all: by rewrite Hr, Hle, Hp.
Qed.

Variable json_ok : json -> Prop.
Hypothesis parse_stringify : forall v, json_ok v -> parse (stringify v) = Some v.

(** X8.  [exists] after [set k v ttl] at time [now], for a non-null value
    that survives the JSON round trip.  In fallback mode, or with a working
    client and a positive TTL, [exists k] at time [t] holds exactly when
    [get k] at [t] returns [v], that is when [t <= now + ttl*1000].  With
    the flag clear and the client down, [set] falls back to the memory
    store, which [exists] does not read: [exists k] is false while [get k]
    still returns [v] within the TTL. *)
Theorem exists_after_set st k v ttl now t :
  json_ok v -> v <> JNull ->
  ((useMemoryFallback st = true \/ (clientUp st = true /\ 0 < ttl)) ->
     (CacheOps.exists_ (set stringify st k v ttl now) k t = true <->
      fst (get parse (set stringify st k v ttl now) k t) = Ok v) /\
     (CacheOps.exists_ (set stringify st k v ttl now) k t = (t <=? now + ttl * 1000))) /\
  ((useMemoryFallback st = false /\ clientUp st = false) ->
     CacheOps.exists_ (set stringify st k v ttl now) k t = false /\
     (t <= now + ttl * 1000 -> fst (get parse (set stringify st k v ttl now) k t) = Ok v)).
Proof.
  intros Hok Hnn. pose proof (parse_stringify v Hok) as Hps.
  assert (Hg : forall a b, (a >? b) = negb (a <=? b)).
  { intros a b. by rewrite Z.gtb_ltb, Z.ltb_antisym. }
  unfold CacheOps.exists_, set, get, memoryGet, redisGet.
  split.
  - intros Hm.
    destruct (useMemoryFallback st) eqn:Hf; simpl; rewrite ?Hf.
    + rewrite lookup_insert_eq. simpl. rewrite Hg.
      destruct (t <=? now + ttl * 1000); simpl; [rewrite Hps; done|].
      split; [|done]. split; [done|]. intros [= <-]. done.
    + destruct Hm as [H|[Hu Ht]]; [discriminate|]. rewrite Hu.
      rewrite (proj2 (Z.ltb_lt _ _) Ht). simpl. rewrite Hu, Hf, lookup_insert_eq.
      destruct (t <=? now + ttl * 1000); [rewrite Hps|]; split; try done.
      split; [done|]. intros [= <-]. done.
  - intros [Hf Hu]. rewrite Hf, Hu. simpl. rewrite Hf, Hu. split; [done|].
    intros Ht. rewrite lookup_insert_eq. simpl. rewrite Hg.
    rewrite (proj2 (Z.leb_le _ _) Ht). simpl. by rewrite Hps.
Qed.

Lemma memoryGet_shrinks st k now :
  redis (snd (memoryGet parse st k now)) = redis st /\
  memoryCache (snd (memoryGet parse st k now)) ⊆ memoryCache st /\
  (forall e, fst (memoryGet parse st k now) = Err e -> e = SyntaxError).
Proof.
  unfold memoryGet. destruct (memoryCache st !! k) as [en|] eqn:E; [|done].
  destruct (now >? expiry en).
  - simpl. split; [done|]. split; [apply delete_subseteq|done].
  - destruct (parse (value en)); simpl; split; try done. split; [done|]. by intros ? [= <-].
Qed.

Lemma get_shrinks st k now :
  redis (snd (get parse st k now)) = redis st /\
  memoryCache (snd (get parse st k now)) ⊆ memoryCache st /\
  (forall e, fst (get parse st k now) = Err e -> e = SyntaxError).
Proof.
  unfold get. destruct (useMemoryFallback st); [apply memoryGet_shrinks|].
  destruct (redisGet st k now) as [[v|]|]; [|done|apply memoryGet_shrinks].
  destruct (parse v); [done|apply memoryGet_shrinks].
Qed.

(** X9.  A [getOrFetch] whose compute function rejects with [e] writes
    nothing: the Redis store is unchanged and the memory store only loses
    entries (expired ones).  The call returns a cached non-null value,
    rejects with [e], or rejects with the SyntaxError of a cached entry
    that does not parse. *)
Theorem getOrFetch_error_no_write st k e ttl tGet tSet :
  let '(r, st', _) := getOrFetch stringify parse st k (Err e) ttl tGet tSet in
  redis st' = redis st /\ memoryCache st' ⊆ memoryCache st /\
  (r = Err e \/ r = Err SyntaxError \/ exists x, r = Ok x /\ x <> JNull).
Proof.
  pose proof (get_shrinks st k tGet) as (Hr & Hm & He).
  unfold getOrFetch. destruct (get parse st k tGet) as [[x|e'] st1]; simpl in *.
  - destruct x; simpl; split; try done; split; try done.
    all: first [by left | right; right; eexists; split; [reflexivity|discriminate]].
  - split; [done|split; [done|]]. right; left. by rewrite (He e' eq_refl).
Qed.

End Facts.
End CacheOpsFacts.

Module W8.
Import Cache.
Lemma exists_after_set_witness :
  (forall v : json, True -> Some v = Some v) /\ True /\ JNum 1 <> JNull /\
  (((useMemoryFallback (mkCache true ∅ ∅ false : @CacheState json) = true \/
     (clientUp (mkCache true ∅ ∅ false : @CacheState json) = true /\ 0 < 60)) ->
    (CacheOps.exists_ (set (fun x => x) (mkCache true ∅ ∅ false) "k" (JNum 1) 60 0) "k" 1000 = true <->
     fst (get Some (set (fun x => x) (mkCache true ∅ ∅ false) "k" (JNum 1) 60 0) "k" 1000) = Ok (JNum 1)) /\
    CacheOps.exists_ (set (fun x => x) (mkCache true ∅ ∅ false) "k" (JNum 1) 60 0) "k" 1000
      = (1000 <=? 0 + 60 * 1000)) /\
   ((useMemoryFallback (mkCache true ∅ ∅ false : @CacheState json) = false /\
     clientUp (mkCache true ∅ ∅ false : @CacheState json) = false) ->
    CacheOps.exists_ (set (fun x => x) (mkCache true ∅ ∅ false) "k" (JNum 1) 60 0) "k" 1000 = false /\
    (1000 <= 0 + 60 * 1000 ->
     fst (get Some (set (fun x => x) (mkCache true ∅ ∅ false) "k" (JNum 1) 60 0) "k" 1000) = Ok (JNum 1)))).
Proof.
  split; [done|]. split; [done|]. split; [discriminate|].
  apply (CacheOpsFacts.exists_after_set (fun x => x) Some (fun _ => True) (fun v _ => eq_refl)
           (mkCache true ∅ ∅ false) "k" (JNum 1) 60 0 1000 I); discriminate.
Defined.
End W8.

Module PageStartFacts.
Import DateUtils Pagination.
Import Measures.

Section Loop.
Variables (owner repo : string) (startDate : Z) (api : PullsApi) (p : Z).

Lemma pageInv_stop s o : pageInv p s -> o <> Looping ->
  pageInv p (mkFetch (currentPage s) (allPRs s) (requested s) o).
Proof. intros (Hr & Hf & Hc & Hp) Ho. repeat split; simpl; try done; intros; apply Hp; done. Qed.

Lemma pageInv_req s cp all' o : pageInv p s -> outcome s = Looping ->
  currentPage s <= MAX_PAGES -> (o = Looping -> cp = currentPage s + 1) ->
  pageInv p (mkFetch cp all' (requested s ++ [currentPage s]) o).
Proof.
  intros (Hr & Hf & Hc & Hp) Ho Hle Hcp. specialize (Hc Ho).
  repeat split; simpl.
  - rewrite length_app, seq_app, map_app. simpl. rewrite <- Hr, Hc.
    repeat f_equal; lia.
  - apply Forall_app. split; [done|]. by constructor.
  - intros Hl. rewrite (Hcp Hl), length_app. simpl. lia.
  - intros. lia.
  - intros. lia.
Qed.

Lemma step_pageInv s : pageInv p s -> pageInv p (step owner repo startDate api s).
Proof.
  intros H0. unfold step.
  destruct (outcome s) eqn:Ho; [|exact H0|exact H0].
  destruct ((currentPage s <=? MAX_PAGES) && (Z.of_nat (length (allPRs s)) <? MAX_PRS)) eqn:Hg;
    [|by apply pageInv_stop].
  apply andb_prop in Hg as [Hle _]. apply Z.leb_le in Hle.
  pose proof (pageInv_req s) as R.
  destruct (api (currentPage s)) as [e|data];
    [apply R; done|].
  destruct (Nat.eqb (length data) 0); [apply R; done|].
  destruct (Z.of_nat (length data) <? PER_PAGE); [apply R; done|].
  destruct (match last data with
            | Some oldestPR => r_created_at oldestPR <? startDate
            | None => false end); [apply R; done|].
  apply R; done.
Qed.

Lemma run_pageInv n : pageInv p (run owner repo startDate api n (initState p)).
Proof.
  induction n as [|n IH]; simpl.
  - repeat split; simpl; try done. intros _. lia.
  - by apply step_pageInv.
Qed.

End Loop.

(** X10.  The page loop of [fetchPullRequests] started at page [p] (the
    page the controller passes) requests the consecutive pages
    [p, p+1, ...], none beyond [MAX_PAGES], at most
    [max(0, MAX_PAGES + 1 - p)] of them; started beyond [MAX_PAGES] it
    requests nothing and collects no pull request. *)
Theorem fetch_from_page owner repo startDate api p n :
  let s := run owner repo startDate api n (initState p) in
  requested s = map (fun i => p + Z.of_nat i) (seq 0 (length (requested s))) /\
  Forall (fun q => p <= q <= MAX_PAGES) (requested s) /\
  (Z.of_nat (length (requested s)) <= Z.max 0 (MAX_PAGES + 1 - p)) /\
  (MAX_PAGES < p -> allPRs s = [] /\ requested s = []).
Proof.
  intros s. destruct (run_pageInv owner repo startDate api p n) as (Hr & Hf & _ & Hp).
  fold s in Hr, Hf, Hp.
  assert (Hlow : Forall (fun q => p <= q) (requested s)).
  { rewrite Hr. apply List.Forall_forall. intros q Hq. apply in_map_iff in Hq as (i & <- & _). lia. }
  split; [done|]. split.
  { apply List.Forall_forall. intros q Hq. split; [eapply List.Forall_forall in Hlow | eapply List.Forall_forall in Hf]; eauto. }
  split; [|done].
  destruct (length (requested s)) as [|k] eqn:Hk; [lia|].
  assert (Hin : In (p + Z.of_nat k) (requested s)).
  { rewrite Hr. apply in_map_iff. exists k. split; [done|]. apply in_seq. lia. }
  eapply List.Forall_forall in Hf; [|exact Hin]. unfold MAX_PAGES in *. lia.
Qed.

End PageStartFacts.

Module BranchesFacts.
Import Pagination Branches.
Import Measures.

Section Loop.
Variable api : BranchesApi.

Lemma brInv_req s br o : brInv api s -> b_outcome s = Looping -> page s <= 3 ->
  br = branches s ++ pageData api (page s) ->
  brInv api (mkBranches (match o with Looping => page s + 1 | _ => page s end) br
           (b_requested s ++ [page s]) o).
Proof.
  intros (Hr & Hf & Hb & Hc) Ho Hle ->. specialize (Hc Ho).
  repeat split; simpl.
  - rewrite length_app, seq_app, map_app. simpl. rewrite <- Hr, Hc.
    repeat f_equal; lia.
  - apply Forall_app. split; [done|]. by constructor.
  - rewrite flat_map_app, Hb. simpl. by rewrite app_nil_r.
  - intros ->. rewrite length_app. simpl. lia.
Qed.

Lemma step_brInv s : brInv api s -> brInv api (step api s).
Proof.
  intros H0. unfold step.
  destruct (b_outcome s) eqn:Ho; [|exact H0|exact H0].
  destruct (page s <=? 3) eqn:Hle.
  2: { destruct H0 as (Hr & Hf & Hb & Hc). repeat split; simpl; done. }
  apply Z.leb_le in Hle.
  destruct (api (page s)) as [e|data] eqn:Ha.
  - apply (brInv_req s (branches s) (Raised (handleGitHubError e))); try done.
    unfold pageData. by rewrite Ha, app_nil_r.
  - destruct (Z.of_nat (length data) <? 100).
    + apply (brInv_req s _ Returned); try done. unfold pageData. by rewrite Ha.
    + apply (brInv_req s _ Looping); try done. unfold pageData. by rewrite Ha.
Qed.

Lemma run_brInv n : brInv api (run api n initBranches).
Proof.
  induction n as [|n IH]; [repeat split; simpl; done|]. simpl. by apply step_brInv.
Qed.

Lemma brInv_length s : brInv api s -> (length (b_requested s) <= 3)%nat.
Proof.
  intros (Hr & Hf & _ & _).
  destruct (length (b_requested s)) as [|k] eqn:Hk; [lia|].
  assert (Hin : In (1 + Z.of_nat k) (b_requested s)).
  { rewrite Hr. apply in_map_iff. exists k. split; [done|]. apply in_seq. lia. }
  eapply List.Forall_forall in Hf; [|exact Hin]. lia.
Qed.

Lemma looping_length n :
  b_outcome (run api n initBranches) = Looping ->
  length (b_requested (run api n initBranches)) = n.
Proof.
  induction n as [|n IH]; [done|]. simpl. intros Hl.
  remember (run api n initBranches) as s.
  unfold step in *. destruct (b_outcome s) eqn:Ho; [|congruence|congruence].
  destruct (page s <=? 3); [|done].
  destruct (api (page s)); [done|].
  destruct (Z.of_nat (length l) <? 100); [done|].
  simpl. rewrite length_app, IH by done. simpl. lia.
Qed.

End Loop.

(** X11.  The loop of [fetchBranches] requests the consecutive pages 1, 2,
    ..., at most 3 of them, and its [branches] is the concatenation of the
    names of the pages it received.  With pages of at most 100 branches it
    collects at most 300 names, and it has stopped after four steps. *)
Theorem fetchBranches_pages (api : BranchesApi) (n : nat) :
  let s := run api n initBranches in
  b_requested s = map (fun i => 1 + Z.of_nat i) (seq 0 (length (b_requested s))) /\
  (length (b_requested s) <= 3)%nat /\
  branches s = flat_map (fun q => match api q with inr d => d | inl _ => [] end)
                 (b_requested s) /\
  ((forall q d, api q = inr d -> (length d <= 100)%nat) -> (length (branches s) <= 300)%nat) /\
  b_outcome (run api 4 initBranches) <> Looping.
Proof.
  intros s. pose proof (run_brInv api n) as H. fold s in H.
  pose proof (brInv_length api s H) as Hl.
  destruct H as (Hr & _ & Hb & _).
  split; [done|]. split; [done|]. split; [done|]. split.
  - intros Hsz. rewrite Hb.
    assert (Hf : forall qs, (length (flat_map (pageData api) qs) <= 100 * length qs)%nat).
    { induction qs as [|q qs IH]; simpl; [lia|]. rewrite length_app.
      unfold pageData at 1. destruct (api q) eqn:Ha; simpl; [lia|].
      pose proof (Hsz _ _ Ha). lia. }
    pose proof (Hf (b_requested s)). lia.
  - intros Hlp. pose proof (looping_length api 4 Hlp) as H4.
    pose proof (brInv_length api _ (run_brInv api 4)). lia.
Qed.

End BranchesFacts.

Module UserStatsFacts.
Import Pagination UserSearch UserStats.
Import Measures.

Section Loop.
Variables (username : string) (api : SearchApi).

Lemma searchInv_req s ps o : searchInv username api s -> s_outcome s = Looping -> s_page s <= 5 ->
  ps = prs s ++ pageItems username api (s_page s) ->
  searchInv username api (mkSearch (match o with Looping => s_page s + 1 | _ => s_page s end) ps
           (s_requested s ++ [s_page s]) o).
Proof.
  intros (Hr & Hf & Hb & Hc) Ho Hle ->. specialize (Hc Ho).
  repeat split; simpl.
  - rewrite length_app, seq_app, map_app. simpl. rewrite <- Hr, Hc.
    repeat f_equal; lia.
  - apply Forall_app. split; [done|]. by constructor.
  - rewrite flat_map_app, Hb. simpl. by rewrite app_nil_r.
  - intros ->. rewrite length_app. simpl. lia.
Qed.

Lemma step_searchInv s : searchInv username api s -> searchInv username api (step username api s).
Proof.
  intros H0. unfold step.
  destruct (s_outcome s) eqn:Ho; [|exact H0|exact H0].
  destruct ((s_page s <=? 5) && (Z.of_nat (length (prs s)) <? 500)) eqn:Hg.
  2: { destruct H0 as (Hr & Hf & Hb & Hc). repeat split; simpl; done. }
  apply andb_prop in Hg as [Hle _]. apply Z.leb_le in Hle.
  destruct (api (s_page s)) as [e|items] eqn:Ha.
  - apply (searchInv_req s (prs s) (Raised (handleGitHubError e))); try done.
    unfold pageItems. by rewrite Ha, app_nil_r.
  - destruct (Nat.eqb (length items) 0) eqn:E0.
    + apply (searchInv_req s (prs s) Returned); try done.
      unfold pageItems. rewrite Ha. apply Nat.eqb_eq in E0.
      destruct items; [|done]. by rewrite app_nil_r.
    + destruct (Z.of_nat (length items) <? 100).
      * apply (searchInv_req s _ Returned); try done. unfold pageItems. by rewrite Ha.
      * apply (searchInv_req s _ Looping); try done. unfold pageItems. by rewrite Ha.
Qed.

Lemma run_searchInv n : searchInv username api (run username api n initSearch).
Proof.
  induction n as [|n IH]; [repeat split; simpl; done|]. simpl. by apply step_searchInv.
Qed.

Lemma searchInv_length s : searchInv username api s -> (length (s_requested s) <= 5)%nat.
Proof.
  intros (Hr & Hf & _ & _).
  destruct (length (s_requested s)) as [|k] eqn:Hk; [lia|].
  assert (Hin : In (1 + Z.of_nat k) (s_requested s)).
  { rewrite Hr. apply in_map_iff. exists k. split; [done|]. apply in_seq. lia. }
  eapply List.Forall_forall in Hf; [|exact Hin]. lia.
Qed.

Lemma search_looping_length n :
  s_outcome (run username api n initSearch) = Looping ->
  length (s_requested (run username api n initSearch)) = n.
Proof.
  induction n as [|n IH]; [done|]. simpl. intros Hl.
  remember (run username api n initSearch) as s.
  unfold step in *. destruct (s_outcome s) eqn:Ho; [|congruence|congruence].
  destruct ((s_page s <=? 5) && (Z.of_nat (length (prs s)) <? 500)); [|done].
  destruct (api (s_page s)); [done|].
  destruct (Nat.eqb (length l) 0); [done|].
  destruct (Z.of_nat (length l) <? 100); [done|].
  simpl. rewrite length_app, IH by done. simpl. lia.
Qed.

End Loop.

(** X12.  The search loop of [fetchUserStats] requests the consecutive
    pages 1, 2, ..., at most 5 of them, and its [prs] is the concatenation
    of the mapped items of the pages it received.  With pages of at most
    100 items it collects at most 500 pull requests, and it has stopped
    after six steps. *)
Theorem fetchUserStats_search_pages (username : string) (api : SearchApi) (n : nat) :
  let s := run username api n initSearch in
  s_requested s = map (fun i => 1 + Z.of_nat i) (seq 0 (length (s_requested s))) /\
  (length (s_requested s) <= 5)%nat /\
  prs s = flat_map (fun q => match api q with
                             | inr d => map (mapSearchItem username) d
                             | inl _ => [] end) (s_requested s) /\
  ((forall q d, api q = inr d -> (length d <= 100)%nat) -> (length (prs s) <= 500)%nat) /\
  s_outcome (run username api 6 initSearch) <> Looping.
Proof.
  intros s. pose proof (run_searchInv username api n) as H. fold s in H.
  pose proof (searchInv_length username api s H) as Hl.
  destruct H as (Hr & _ & Hb & _).
  split; [done|]. split; [done|]. split; [exact Hb|]. split.
  - intros Hsz. rewrite Hb.
    assert (Hf : forall qs, (length (flat_map (pageItems username api) qs) <= 100 * length qs)%nat).
    { induction qs as [|q qs IH]; simpl; [lia|]. rewrite length_app.
      unfold pageItems at 1. destruct (api q) eqn:Ha; simpl; [lia|].
      rewrite length_map. pose proof (Hsz _ _ Ha). lia. }
    pose proof (Hf (s_requested s)). lia.
  - intros Hlp. pose proof (search_looping_length username api 6 Hlp) as H6.
    pose proof (searchInv_length username api _ (run_searchInv username api 6)). lia.
Qed.

End UserStatsFacts.

Module RepositoriesFacts.
Import UserStats.
Import Measures.

Lemma get_set_ne {K V} `{EqDecision K} (k k' : K) (v : V) (m : list (K * V)) :
  k <> k' -> OMap.get k' (OMap.set k v m) = OMap.get k' m.
Proof.
  intros Hk. induction m as [|[k0 v0] m IH]; simpl.
  - by rewrite decide_False.
  - destruct (decide (k = k0)) as [->|]; simpl.
    + by rewrite !decide_False by done.
    + by destruct (decide (k' = k0)).
Qed.

Lemma repositoryStep_eq m pr :
  repositoryStep m pr =
  OMap.set (repositoryName pr)
    (bump pr (default (mkContribution (repositoryName pr) 0 0 false)
                 (OMap.get (repositoryName pr) m)))
    (if OMap.has (repositoryName pr) m then m
     else OMap.set (repositoryName pr) (mkContribution (repositoryName pr) 0 0 false) m).
Proof.
  unfold repositoryStep, OMap.has, bump.
  destruct (OMap.get (repositoryName pr) m) as [r|] eqn:Hg.
  - rewrite Hg. by destruct (merged pr).
  - rewrite OMapFacts.get_set_eq. simpl. by destruct (merged pr).
Qed.

Lemma repositoryStep_get m pr n :
  OMap.get n (repositoryStep m pr) =
  if decide (repositoryName pr = n)
  then Some (bump pr (default (mkContribution n 0 0 false) (OMap.get n m)))
  else OMap.get n m.
Proof.
  rewrite repositoryStep_eq. case_decide as Hn.
  - subst n. by rewrite OMapFacts.get_set_eq.
  - rewrite get_set_ne by done. unfold OMap.has.
    destruct (OMap.get (repositoryName pr) m); [done|]. by rewrite get_set_ne.
Qed.

Lemma fold_get prs m n :
  OMap.get n (fold_left repositoryStep prs m) =
  match OMap.get n m, countIn n prs with
  | None, O => None
  | None, c => Some (mkContribution n c (mergedIn n prs) false)
  | Some r, c => Some (mkContribution (fullName r) (prCount r + c)
                         (mergedCount r + mergedIn n prs) (rc_isMaintainer r))
  end.
Proof.
  revert m. induction prs as [|pr prs IH]; intros m; simpl.
  - unfold countIn, mergedIn. simpl. destruct (OMap.get n m) as [[]|]; simpl; do 2 f_equal; lia.
  - rewrite IH, repositoryStep_get. unfold countIn, mergedIn. rewrite !filter_cons.
    repeat case_decide; try tauto; try done.
    all: destruct (OMap.get n m) as [r|]; unfold bump; simpl;
      destruct (merged pr) eqn:E; try tauto; simpl; subst; try (do 2 f_equal; lia).
Qed.

Lemma repositoryStep_sums m pr :
  (sum_list_with prCount (OMap.values (repositoryStep m pr))
     = S (sum_list_with prCount (OMap.values m)) /\
   sum_list_with mergedCount (OMap.values (repositoryStep m pr))
     = sum_list_with mergedCount (OMap.values m) + (if merged pr then 1 else 0))%nat.
Proof.
  rewrite repositoryStep_eq. unfold OMap.has.
  destruct (OMap.get (repositoryName pr) m) as [r|] eqn:Hg; simpl.
  - pose proof (OMapFacts.sum_values_set prCount (repositoryName pr) (bump pr r) m) as H1.
    pose proof (OMapFacts.sum_values_set mergedCount (repositoryName pr) (bump pr r) m) as H2.
    rewrite Hg in H1, H2. unfold bump in *. simpl in *.
    destruct (merged pr); simpl in *; lia.
  - set (r0 := mkContribution (repositoryName pr) 0 0 false).
    pose proof (OMapFacts.sum_values_set prCount (repositoryName pr) (bump pr r0)
                  (OMap.set (repositoryName pr) r0 m)) as H1.
    pose proof (OMapFacts.sum_values_set mergedCount (repositoryName pr) (bump pr r0)
                  (OMap.set (repositoryName pr) r0 m)) as H2.
    pose proof (OMapFacts.sum_values_set prCount (repositoryName pr) r0 m) as H3.
    pose proof (OMapFacts.sum_values_set mergedCount (repositoryName pr) r0 m) as H4.
    rewrite OMapFacts.get_set_eq in H1, H2. rewrite Hg in H3, H4.
    unfold bump, r0 in *. simpl in *. destruct (merged pr); simpl in *; lia.
Qed.

Lemma fold_sums prs m :
  (sum_list_with prCount (OMap.values (fold_left repositoryStep prs m))
     = sum_list_with prCount (OMap.values m) + length prs /\
   sum_list_with mergedCount (OMap.values (fold_left repositoryStep prs m))
     = sum_list_with mergedCount (OMap.values m)
       + length (filter (fun pr => merged pr = true) prs))%nat.
Proof.
  revert m. induction prs as [|pr prs IH]; intros m; simpl; [lia|].
  destruct (IH (repositoryStep m pr)) as [H1 H2].
  destruct (repositoryStep_sums m pr) as [H3 H4].
  rewrite filter_cons. case_decide as Hm; simpl; [rewrite Hm in H4|destruct (merged pr); [done|]]; simpl in *; lia.
Qed.

(** X13.  The per-repository rollup of [fetchUserStats] has an entry for
    exactly the repository names that occur in the PR list; the entry of
    [n] counts the PRs of [n] and the merged ones among them, with
    [isMaintainer] false.  Its [prCount] column sums to the number of PRs
    and its [mergedCount] column to the number of merged PRs. *)
Theorem repositories_rollup (prs : list PullRequest) :
  (forall n, OMap.get n (repositories prs) =
     match length (filter (fun pr => repositoryName pr = n) prs) with
     | O => None
     | c => Some (mkContribution n c
                    (length (filter (fun pr => repositoryName pr = n /\ merged pr = true) prs))
                    false)
     end) /\
  (sum_list_with prCount (OMap.values (repositories prs)) = length prs)%nat /\
  (sum_list_with mergedCount (OMap.values (repositories prs))
     = length (filter (fun pr => merged pr = true) prs))%nat.
Proof.
  unfold repositories. destruct (fold_sums prs []) as [H1 H2]. simpl in H1, H2.
  split; [|split; done].
  intros n. rewrite fold_get. simpl. fold (countIn n prs) (mergedIn n prs).
  by destruct (countIn n prs).
Qed.

End RepositoriesFacts.

Module ContributorOrderFacts.
Import ContributorOrder.
Import Measures.

Lemma desc_trans : Transitive desc.
Proof. intros a b c. unfold desc. lia. Qed.

Lemma insertDesc_perm c l : insertDesc c l ≡ₚ c :: l.
Proof.
  induction l as [|x l IH]; simpl; [done|].
  destruct (totalPRs x <? totalPRs c)%nat; [done|].
  rewrite IH. constructor.
Qed.

Lemma insertDesc_sorted c l : Sorted desc l -> Sorted desc (insertDesc c l).
Proof.
  induction 1 as [|x l Hl IH Hx]; simpl; [by repeat constructor|].
  destruct (totalPRs x <? totalPRs c)%nat eqn:E.
  - apply Nat.ltb_lt in E. constructor; [by constructor|]. constructor. unfold desc. lia.
  - apply Nat.ltb_ge in E. constructor; [done|].
    destruct l as [|y l]; simpl; [constructor; unfold desc; lia|].
    inversion Hx; subst. destruct (totalPRs y <? totalPRs c)%nat; constructor; unfold desc in *; lia.
Qed.

Lemma filter_all_false (k : nat) l : Forall (fun d => totalPRs d <> k) l ->
  filter (fun d => totalPRs d = k) l = [].
Proof. induction 1; [done|]. rewrite filter_cons, decide_False by done. done. Qed.

Lemma insertDesc_filter c l k : Sorted desc l ->
  filter (fun d => totalPRs d = k) (insertDesc c l) =
  filter (fun d => totalPRs d = k) l ++ filter (fun d => totalPRs d = k) [c].
Proof.
  intros Hs. apply Sorted_StronglySorted in Hs; [|exact desc_trans].
  induction Hs as [|x l Hl IH Hx]; simpl; [done|].
  destruct (totalPRs x <? totalPRs c)%nat eqn:E.
  - apply Nat.ltb_lt in E.
    assert (Hlt : Forall (fun d => (totalPRs d < totalPRs c)%nat) (x :: l)).
    { constructor; [done|]. eapply Forall_impl; [exact Hx|]. unfold desc. intros; lia. }
    rewrite filter_cons. case_decide as Hc.
    + subst k. rewrite (filter_all_false _ (x :: l)); [simpl; by rewrite filter_cons, decide_True, filter_nil|].
      eapply Forall_impl; [exact Hlt|]. simpl. intros; lia.
    + rewrite (filter_cons _ c []), decide_False, filter_nil by done.
      by rewrite app_nil_r.
  - rewrite !filter_cons. rewrite IH. simpl. rewrite filter_cons, filter_nil.
    by case_decide.
Qed.

Lemma fold_sorted l acc : Sorted desc acc ->
  Sorted desc (fold_left (fun acc c => insertDesc c acc) l acc).
Proof.
  revert acc. induction l as [|c l IH]; intros acc H; simpl; [done|].
  apply IH. by apply insertDesc_sorted.
Qed.

Lemma fold_perm l acc : fold_left (fun acc c => insertDesc c acc) l acc ≡ₚ l ++ acc.
Proof.
  revert acc. induction l as [|c l IH]; intros acc; simpl; [done|].
  rewrite IH, insertDesc_perm. by rewrite Permutation_middle.
Qed.

Lemma fold_filter l acc k : Sorted desc acc ->
  filter (fun d => totalPRs d = k) (fold_left (fun acc c => insertDesc c acc) l acc) =
  filter (fun d => totalPRs d = k) acc ++ filter (fun d => totalPRs d = k) l.
Proof.
  revert acc. induction l as [|c l IH]; intros acc H; simpl.
  - by rewrite filter_nil, app_nil_r.
  - rewrite IH by (by apply insertDesc_sorted). rewrite insertDesc_filter by done.
    rewrite filter_cons. rewrite <- app_assoc. f_equal. simpl.
    rewrite filter_cons, filter_nil. by case_decide.
Qed.

Lemma sorted_head_max x l : Sorted desc (x :: l) -> Forall (desc x) l.
Proof.
  intros H. apply Sorted_StronglySorted in H; [|exact desc_trans].
  by inversion H.
Qed.

Lemma filter_key_nonempty (l : list ContributorStats) y :
  In y l -> filter (fun d => totalPRs d = totalPRs y) l <> [].
Proof.
  intros Hin Hf. eapply (filter_nil_not_elem_of _ _ y Hf); [reflexivity|].
  by apply list_elem_of_In.
Qed.

Lemma in_filter_key k (l : list ContributorStats) z :
  In z (filter (fun d => totalPRs d = k) l) -> totalPRs z = k /\ In z l.
Proof.
  induction l as [|x l IH]; simpl; [done|]. rewrite filter_cons.
  case_decide; simpl; [intros [->|Hz]; [tauto|] | intros Hz]; apply IH in Hz; tauto.
Qed.

Lemma sorted_unique l1 l2 : Sorted desc l1 -> Sorted desc l2 ->
  (forall k, filter (fun d => totalPRs d = k) l1 = filter (fun d => totalPRs d = k) l2) ->
  l1 = l2.
Proof.
  revert l2. induction l1 as [|x l1 IH]; intros l2 H1 H2 Hf.
  - destruct l2 as [|y l2]; [done|]. exfalso.
    apply (filter_key_nonempty (y :: l2) y); [by left|]. by rewrite <- Hf.
  - destruct l2 as [|y l2].
    { exfalso. apply (filter_key_nonempty (x :: l1) x); [by left|]. by rewrite Hf. }
    pose proof (sorted_head_max _ _ H1) as M1. pose proof (sorted_head_max _ _ H2) as M2.
    assert (Hxy : totalPRs x = totalPRs y).
    { assert (A : In y (filter (fun d => totalPRs d = totalPRs y) (x :: l1))).
      { rewrite Hf. simpl. rewrite filter_cons, decide_True by done. by left. }
      assert (B : In x (filter (fun d => totalPRs d = totalPRs x) (y :: l2))).
      { rewrite <- Hf. simpl. rewrite filter_cons, decide_True by done. by left. }
      apply in_filter_key in A as [_ [A|A]]; apply in_filter_key in B as [_ [B|B]];
        try (subst; done).
      eapply List.Forall_forall in M1; [|exact A].
      eapply List.Forall_forall in M2; [|exact B]. unfold desc in *. lia. }
    assert (Hx := Hf (totalPRs x)). rewrite !filter_cons in Hx.
    rewrite decide_True in Hx by done. rewrite decide_True in Hx by done.
    injection Hx as <- _.
    f_equal. apply IH.
    + by apply Sorted_inv in H1 as [? _].
    + by apply Sorted_inv in H2 as [? _].
    + intros k. specialize (Hf k). rewrite !filter_cons in Hf.
      case_decide; [by injection Hf|done].
Qed.

Lemma sum_perm (f : ContributorStats -> nat) l1 l2 :
  l1 ≡ₚ l2 -> sum_list_with f l1 = sum_list_with f l2.
Proof. induction 1; simpl; lia. Qed.

(** X14.  The contributor order of [fetchRepositoryStats]
    ([contributors.sort((a, b) => b.totalPRs - a.totalPRs)], a stable
    sort) is sorted by [totalPRs] descending, is a permutation of the
    input, keeps the input order among contributors with equal
    [totalPRs], and is the only list with these properties.  Applied to
    [calculateContributorStats] its [totalPRs] sum to the number of PRs. *)
Theorem sortContributors_stable (l : list ContributorStats) :
  Sorted desc (sortContributors l) /\
  sortContributors l ≡ₚ l /\
  (forall k, filter (fun c => totalPRs c = k) (sortContributors l)
             = filter (fun c => totalPRs c = k) l) /\
  (forall l', Sorted desc l' ->
     (forall k, filter (fun c => totalPRs c = k) l' = filter (fun c => totalPRs c = k) l) ->
     l' = sortContributors l) /\
  (forall prs maintainers, l = Aggregator.calculateContributorStats prs maintainers ->
     sum_list_with totalPRs (sortContributors l) = length prs)%nat.
Proof.
  assert (Hs : Sorted desc (sortContributors l)) by (apply fold_sorted; constructor).
  assert (Hf : forall k, filter (fun c => totalPRs c = k) (sortContributors l)
                         = filter (fun c => totalPRs c = k) l).
  { intros k. unfold sortContributors. rewrite fold_filter by constructor.
    by rewrite filter_nil. }
  assert (Hp : sortContributors l ≡ₚ l).
  { unfold sortContributors. rewrite fold_perm. by rewrite app_nil_r. }
  split; [done|]. split; [done|]. split; [done|]. split.
  - intros l' Hs' Hf'. apply sorted_unique; [done|done|]. intros k. by rewrite Hf', Hf.
  - intros prs maintainers ->.
    rewrite (sum_perm _ _ _ Hp).
    apply (proj1 (AggregatorFacts.calculateContributorStats_invariant prs maintainers)).
Qed.

End ContributorOrderFacts.

Module LabelFacts.
Import Aggregator.
Import Measures.



End LabelFacts.

Module TimelineSums.
Import DateUtils Timeline.
Import Measures.

Lemma has_set {V} (k d : Z) (v : V) m :
  OMap.has d (OMap.set k v m) = if decide (d = k) then true else OMap.has d m.
Proof.
  unfold OMap.has. case_decide as H.
  - subst. by rewrite OMapFacts.get_set_eq.
  - by rewrite RepositoriesFacts.get_set_ne.
Qed.

Lemma has_bumpAt f d d' m : OMap.has d (bumpAt f d' m) = OMap.has d m.
Proof.
  unfold bumpAt. destruct (OMap.get d' m) eqn:E; [|done].
  rewrite has_set. case_decide; [subst; unfold OMap.has; by rewrite E|done].
Qed.

Lemma has_countDay d m pr : OMap.has d (countDay m pr) = OMap.has d m.
Proof.
  unfold countDay. destruct (mergedAt pr); [|destruct (closedAt pr)];
    rewrite ?has_bumpAt; done.
Qed.

Lemma sum_bumpAt g f d m (delta : nat) :
  (forall p, g (f p) = g p + delta)%nat ->
  sumOf g (bumpAt f d m) = (sumOf g m + if OMap.has d m then delta else 0)%nat.
Proof.
  intros Hg. unfold bumpAt, sumOf, OMap.has.
  destruct (OMap.get d m) as [p|] eqn:E; [|lia].
  pose proof (OMapFacts.sum_values_set g d (f p) m) as H. rewrite E in H. simpl in H.
  rewrite Hg in H. lia.
Qed.

Lemma countDay_sums m pr :
  sumOf opened (countDay m pr) = (sumOf opened m + inRange m (toDateString (createdAt pr)))%nat /\
  sumOf mergedN (countDay m pr) = (sumOf mergedN m +
     match mergedAt pr with Some t => inRange m (toDateString t) | None => 0 end)%nat /\
  sumOf closedN (countDay m pr) = (sumOf closedN m +
     match mergedAt pr, closedAt pr with
     | None, Some t => inRange m (toDateString t) | _, _ => 0 end)%nat.
Proof.
  unfold countDay, inRange.
  set (m1 := bumpAt bumpOpened (toDateString (createdAt pr)) m).
  assert (E1 : forall g, (forall p, g (bumpOpened p) = g p + 0)%nat ->
                 sumOf g m1 = sumOf g m).
  { intros g Hg. unfold m1. rewrite (sum_bumpAt g _ _ _ 0) by done. destruct (OMap.has _ m); lia. }
  assert (Hm1 : forall d, OMap.has d m1 = OMap.has d m) by (intros; apply has_bumpAt).
  assert (O1 : sumOf opened m1 = (sumOf opened m + if OMap.has (toDateString (createdAt pr)) m then 1 else 0)%nat).
  { unfold m1. apply sum_bumpAt. intros p. simpl. lia. }
  assert (Z0 : forall f g, (forall p, g (f p) = g p + 0)%nat -> forall d m',
            sumOf g (bumpAt f d m') = sumOf g m').
  { intros f g Hg d m'. rewrite (sum_bumpAt g f d m' 0) by done. destruct (OMap.has d m'); lia. }
  destruct (mergedAt pr) as [t|]; [|destruct (closedAt pr) as [c|]]; (split; [|split]).
  - rewrite Z0 by (intros p; simpl; lia). exact O1.
  - rewrite (sum_bumpAt _ bumpMerged _ _ 1) by (intros p; simpl; lia).
    rewrite E1, Hm1 by (intros p; simpl; lia). done.
  - rewrite Z0 by (intros p; simpl; lia). rewrite E1 by (intros p; simpl; lia). lia.
  - rewrite Z0 by (intros p; simpl; lia). exact O1.
  - rewrite Z0 by (intros p; simpl; lia). rewrite E1 by (intros p; simpl; lia). lia.
  - rewrite (sum_bumpAt _ bumpClosed _ _ 1) by (intros p; simpl; lia).
    rewrite E1, Hm1 by (intros p; simpl; lia). done.
  - exact O1.
  - rewrite E1 by (intros p; simpl; lia). lia.
  - rewrite E1 by (intros p; simpl; lia). lia.
Qed.

Lemma init_has (dates : list Z) m d :
  OMap.has d (fold_left (fun m d => OMap.set d (mkPoint d 0 0 0) m) dates m) =
  if decide (d ∈ dates) then true else OMap.has d m.
Proof.
  revert m. induction dates as [|x dates IH]; intros m; cbn [fold_left].
  - case_decide as H; [by apply not_elem_of_nil in H|done].
  - rewrite IH, has_set.
    destruct (decide (d ∈ x :: dates)) as [H|H].
    + apply elem_of_cons in H as [->|H].
      * case_decide; [done|]. by rewrite decide_True.
      * by rewrite decide_True.
    + rewrite !decide_False; [done| |]; intros ?; apply H.
      * subst. apply list_elem_of_here.
      * by apply list_elem_of_further.
Qed.

Lemma fold_has prs m d : OMap.has d (fold_left countDay prs m) = OMap.has d m.
Proof.
  revert m. induction prs as [|pr prs IH]; intros m; simpl; [done|].
  by rewrite IH, has_countDay.
Qed.

Lemma timeline_fold_sums prs m :
  sumOf opened (fold_left countDay prs m) = (sumOf opened m +
    length (filter (fun pr => OMap.has (toDateString (createdAt pr)) m = true) prs))%nat /\
  sumOf mergedN (fold_left countDay prs m) = (sumOf mergedN m +
    length (filter (fun pr => match mergedAt pr with
                              | Some t => OMap.has (toDateString t) m | None => false end = true) prs))%nat /\
  sumOf closedN (fold_left countDay prs m) = (sumOf closedN m +
    length (filter (fun pr => match mergedAt pr, closedAt pr with
                              | None, Some t => OMap.has (toDateString t) m | _, _ => false end = true) prs))%nat.
Proof.
  revert m. induction prs as [|pr prs IH]; intros m; simpl; [lia|].
  destruct (IH (countDay m pr)) as (H1 & H2 & H3).
  destruct (countDay_sums m pr) as (S1 & S2 & S3).
  unfold inRange in *. rewrite !filter_cons.
  rewrite (list_filter_iff _ (fun pr => OMap.has (toDateString (createdAt pr)) m = true))
    in H1 by (intros; by rewrite has_countDay).
  rewrite (list_filter_iff _ (fun pr => match mergedAt pr with
      | Some t => OMap.has (toDateString t) m | None => false end = true))
    in H2 by (intros x; destruct (mergedAt x); [by rewrite has_countDay|done]).
  rewrite (list_filter_iff _ (fun pr => match mergedAt pr, closedAt pr with
      | None, Some t => OMap.has (toDateString t) m | _, _ => false end = true))
    in H3 by (intros x; destruct (mergedAt x), (closedAt x); try done; by rewrite has_countDay).
  repeat split.
  - rewrite H1, S1. destruct (OMap.has (toDateString (createdAt pr)) m) eqn:Eh;
      case_decide as Hd; simpl in Hd; rewrite ?Eh in Hd; simpl; try done; lia.
  - rewrite H2, S2. destruct (mergedAt pr) as [t|] eqn:Em;
      [destruct (OMap.has (toDateString t) m) eqn:Eh|];
      case_decide as Hd; simpl in Hd; rewrite ?Em, ?Eh in Hd; simpl; try done; lia.
  - rewrite H3, S3. destruct (mergedAt pr) as [t|] eqn:Em;
      [|destruct (closedAt pr) as [c|] eqn:Ec; [destruct (OMap.has (toDateString c) m) eqn:Eh|]];
      case_decide as Hd; simpl in Hd; rewrite ?Em, ?Ec, ?Eh in Hd; simpl; try done; lia.
Qed.

Lemma init_zero (dates : list Z) :
  Forall (fun p => opened p = 0 /\ mergedN p = 0 /\ closedN p = 0)%nat
    (OMap.values (fold_left (fun m d => OMap.set d (mkPoint d 0 0 0) m) dates [])).
Proof.
  assert (G : forall m, Forall (fun p => opened p = 0 /\ mergedN p = 0 /\ closedN p = 0)%nat
                         (OMap.values m) ->
    Forall (fun p => opened p = 0 /\ mergedN p = 0 /\ closedN p = 0)%nat
    (OMap.values (fold_left (fun m d => OMap.set d (mkPoint d 0 0 0) m) dates m))).
  { induction dates as [|x dates IH]; intros m Hm; simpl; [done|].
    apply IH. apply OMapFacts.values_set_Forall; [done|]. simpl; lia. }
  apply G. constructor.
Qed.

Lemma sum_zero g (l : list ActivityDataPoint) : Forall (fun p => g p = 0%nat) l ->
  sum_list_with g l = 0%nat.
Proof. induction 1; simpl; lia. Qed.

(** X16.  The column totals of [calculateActivityTimeline]: [opened] sums
    to the number of PRs created on a day of the date range, [merged] to
    the number of merged PRs merged on a day of the range, and [closed] to
    the number of unmerged PRs closed on a day of the range. *)
Theorem activityTimeline_totals (z : Zone) (prs : list PullRequest) (f : TimeFilter) (now : Z) :
  let dateRange := generateDateRange z f now in
  let tl := calculateActivityTimeline z prs f now in
  sum_list_with opened tl =
    length (filter (fun pr => toDateString (createdAt pr) ∈ dateRange) prs) /\
  sum_list_with mergedN tl =
    length (filter (fun pr => match mergedAt pr with
                              | Some t => bool_decide (toDateString t ∈ dateRange)
                              | None => false end = true) prs) /\
  sum_list_with closedN tl =
    length (filter (fun pr => match mergedAt pr, closedAt pr with
                              | None, Some t => bool_decide (toDateString t ∈ dateRange)
                              | _, _ => false end = true) prs).
Proof.
  intros dateRange tl. unfold tl, calculateActivityTimeline. fold dateRange.
  set (m0 := fold_left (fun m d => OMap.set d (mkPoint d 0 0 0) m) dateRange []).
  assert (Hh : forall d, OMap.has d m0 = bool_decide (d ∈ dateRange)).
  { intros d. unfold m0. rewrite init_has. unfold OMap.has. simpl.
    case_decide; [by rewrite bool_decide_true|by rewrite bool_decide_false]. }
  pose proof (init_zero dateRange) as Z0. fold m0 in Z0.
  assert (E : forall g, (forall p, ((opened p = 0 /\ mergedN p = 0 /\ closedN p = 0) -> g p = 0))%nat ->
            sumOf g m0 = 0%nat).
  { intros g Hg. apply sum_zero. eapply Forall_impl; [exact Z0|]. auto. }
  destruct (timeline_fold_sums prs m0) as (H1 & H2 & H3).
  unfold sumOf in H1, H2, H3, E.
  split; [|split].
  - rewrite H1, E by (intros p; tauto). simpl.
    apply f_equal, list_filter_iff. intros pr. rewrite Hh. apply bool_decide_eq_true.
  - rewrite H2, E by (intros p; tauto). simpl.
    apply f_equal, list_filter_iff. intros pr. destruct (mergedAt pr); [|done]. by rewrite Hh.
  - rewrite H3, E by (intros p; tauto). simpl.
    apply f_equal, list_filter_iff. intros pr.
    destruct (mergedAt pr), (closedAt pr); try done. by rewrite Hh.
Qed.

End TimelineSums.

Module CacheKeyMore.
Import CACHE_KEYS.
#[local] Arguments String.append : simpl nomatch.

(** X17.  The six key families of [CACHE_KEYS] (repo:, user:,
    maintainers:, branches:, session:, ratelimit:) never collide with one
    another, and the [maintainers], [branches] and [userStats] keys are
    injective when their first argument contains no ':'. *)
Theorem cache_key_namespaces (o r b f u f' o2 r2 o3 r3 i i' : string) :
  NoDup [repoStats o r b f; userStats u f'; maintainers o2 r2; CACHE_KEYS.branches o3 r3;
         session i; rateLimit i'] /\
  (forall o1 r1 o2 r2, noColon o1 = true -> noColon o2 = true ->
     maintainers o1 r1 = maintainers o2 r2 -> o1 = o2 /\ r1 = r2) /\
  (forall o1 r1 o2 r2, noColon o1 = true -> noColon o2 = true ->
     CACHE_KEYS.branches o1 r1 = CACHE_KEYS.branches o2 r2 -> o1 = o2 /\ r1 = r2) /\
  (forall u1 f1 u2 f2, noColon u1 = true -> noColon u2 = true ->
     userStats u1 f1 = userStats u2 f2 -> u1 = u2 /\ f1 = f2).
Proof.
  split; [|split; [|split]].
  - unfold repoStats, userStats, maintainers, CACHE_KEYS.branches, session, rateLimit.
    repeat (constructor; [rewrite list_elem_of_In; simpl; intuition congruence|]). constructor.
  - unfold maintainers. intros o1 r1 o4 r4 H1 H2 H. simpl in H.
    injection H as H. by apply CacheKeyFacts.split_at_colon.
  - unfold CACHE_KEYS.branches. intros o1 r1 o4 r4 H1 H2 H. simpl in H.
    injection H as H. by apply CacheKeyFacts.split_at_colon.
  - unfold userStats. intros o1 r1 o4 r4 H1 H2 H. simpl in H.
    injection H as H. by apply CacheKeyFacts.split_at_colon.
Qed.
End CacheKeyMore.

